(** * VidBot: transcript aggregation, summarisation and grounded Q&A

    A shallow embedding of [app.py].  A Python [str] is the sequence of
    its Unicode code points; the remote services (transcript API, HTTP,
    the text-generation and embedding models, the Teams webhook) are an
    environment that answers each call from the history of what the
    script has done so far; the script itself is written in a small
    state-and-exception monad whose state is the history and the
    Streamlit session slot. *)

From Stdlib Require Import List Bool Arith ZArith NArith Lia.
From Stdlib Require Import Ascii String DecimalString.
From Stdlib Require Import Floats.SpecFloat.
Import ListNotations.

Set Implicit Arguments.

(** ** Python strings *)

Module Py.

(** A [str] is a list of code points. *)
Definition str := list N.

(** An ASCII literal of the source, character by character. *)
Definition lit (s : string) : str :=
  map N_of_ascii (list_ascii_of_string s).
Arguments lit s%_string.

(** Truthiness of a string: [if s:] holds for the non-empty ones. *)
Definition truthy (s : str) : bool :=
  match s with [] => false | _ :: _ => true end.

(** [s.startswith(p)]. *)
Fixpoint startswith (p s : str) : bool :=
  match p, s with
  | [], _ => true
  | _ :: _, [] => false
  | a :: p', b :: s' => N.eqb a b && startswith p' s'
  end.

(** [sub in s]: some position of [s] starts with [sub]. *)
Fixpoint contains (sub s : str) : bool :=
  startswith sub s ||
  match s with
  | [] => false
  | _ :: s' => contains sub s'
  end.

(** The scan of [s.split(sep)] for a non-empty [sep]: left to right, the
    leftmost match closes the current piece and the scan resumes behind
    it ([skip] counts the characters of the match still to be passed
    over); [cur] is the piece being built. *)
Fixpoint split_scan (sep : str) (skip : nat) (cur s : str) : list str :=
  match s with
  | [] => [cur]
  | c :: s' =>
      match skip with
      | S k => split_scan sep k cur s'
      | O =>
          if startswith sep s
          then cur :: split_scan sep (List.length sep - 1) [] s'
          else split_scan sep 0 (cur ++ [c]) s'
      end
  end.

(** [s.split(sep)]; [None] is the [ValueError] of an empty separator. *)
Definition split (sep s : str) : option (list str) :=
  match sep with
  | [] => None
  | _ :: _ => Some (split_scan sep 0 [] s)
  end.

(** [parts[-1]] of a list ([IndexError], here [None], when empty). *)
Definition last_item (parts : list str) : option str :=
  match parts with
  | [] => None
  | p :: ps => Some (last ps p)
  end.

(** [sep.join(parts)]. *)
Fixpoint join (sep : str) (parts : list str) : str :=
  match parts with
  | [] => []
  | [p] => p
  | p :: ps => p ++ sep ++ join sep ps
  end.

(** [c.isspace()] for a code point: the characters [str.strip()]
    removes. *)
Definition isspace (c : N) : bool :=
  (((9 <=? c) && (c <=? 13)) || ((28 <=? c) && (c <=? 32))
   || (c =? 133) || (c =? 160) || (c =? 5760)
   || ((8192 <=? c) && (c <=? 8202))
   || (c =? 8232) || (c =? 8233) || (c =? 8239) || (c =? 8287)
   || (c =? 12288))%N.

Fixpoint lstrip (s : str) : str :=
  match s with
  | c :: s' => if isspace c then lstrip s' else s
  | [] => []
  end.

Definition rstrip (s : str) : str := rev (lstrip (rev s)).

(** [s.strip()]. *)
Definition strip (s : str) : str := rstrip (lstrip s).

(** [str(n)] / [f"{n}"] of a non-negative integer. *)
Definition str_of_nat (n : nat) : str :=
  lit (NilZero.string_of_uint (Nat.to_uint n)).

End Py.

Import Py.

(** ** Values that cross the remote boundaries *)

(** A raised Python exception: its class and [str(e)]. *)
Record exn := Exn { exn_class : str; exn_msg : str }.

(** The [requests] library: a response, and [raise_for_status], which
    raises [HTTPError] for the client (4xx) and server (5xx) error
    statuses and returns for every other status. *)
Module requests.

Record Response := {
  status_code : Z;
  reason : str;
  url : str;
  text : str
}.

Definition http_error_msg (r : Response) : option str :=
  let describe (kind : str) :=
    str_of_nat (Z.to_nat (status_code r)) ++ kind ++ reason r
    ++ lit " for url: " ++ url r in
  if ((400 <=? status_code r) && (status_code r <? 500))%Z
  then Some (describe (lit " Client Error: "))
  else if ((500 <=? status_code r) && (status_code r <? 600))%Z
  then Some (describe (lit " Server Error: "))
  else None.

Definition raise_for_status (r : Response) : exn + unit :=
  match http_error_msg r with
  | Some msg => inl (Exn (lit "HTTPError") msg)
  | None => inr tt
  end.

End requests.

(** JSON values, as far as the webhook payload needs them: a [dict] of
    string keys is its list of items. *)
#[warnings="-register-all"]
Inductive json :=
| JStr (s : str)
| JDict (items : list (str * json)).

(** One caption of [YouTubeTranscriptApi.get_transcript]. *)
Module caption.
Record t := { text : str; start : spec_float; duration : spec_float }.
End caption.

(** The responses of the Gen AI client. *)
Module genai.
Record GenerateContentResponse := { text : str }.
Record ContentEmbedding := { values : list spec_float }.
Record EmbedContentResponse := { embeddings : list ContentEmbedding }.
End genai.

(** ** Histories *)

(** The calls that leave the process. *)
Inductive request :=
| Get_transcript (video_id : str)
| Requests_get (url : str)
| Requests_post (url : str) (body : json)
| Generate_content (model : str) (contents : list str)
| Embed_content (model : str) (contents : str).

(** An argument of [st.write]. *)
Inductive st_value :=
| VStr (s : str)
| VEmbeddings (e : list genai.ContentEmbedding).

(** What a run does, in the order it does it: remote calls and what
    Streamlit is told to show. *)
Inductive event :=
| Call (r : request)
| St_title (s : str)
| St_spinner (s : str)
| St_write (args : list st_value)
| St_warning (s : str)
| St_error (s : str)
| St_success (s : str)
| St_subheader (s : str)
| St_markdown (s : str).

Definition history := list event.

(** The world outside: the loaded webhook configuration and, for each
    remote call, its outcome given everything the script did before it.
    (The script stops at start-up when [GOOGLE_API_KEY] or
    [TEAMS_WEBHOOK_URL] is unset, so the code below runs with both.) *)
Record Env := {
  TEAMS_WEBHOOK_URL : str;
  get_transcript : history -> str -> exn + list caption.t;
  http_get : history -> str -> exn + requests.Response;
  http_post : history -> str -> json -> exn + requests.Response;
  generate_content :
    history -> str -> list str -> exn + genai.GenerateContentResponse;
  embed_content : history -> str -> str -> exn + genai.EmbedContentResponse
}.

(** The state of a session: the history so far and
    [st.session_state.summary] ([None] while it was never set). *)
Record State := {
  log : history;
  session_summary : option str
}.

Definition initial : State := {| log := []; session_summary := None |}.

(** ** The monad of the script: state and exceptions *)

Definition M (A : Type) : Type := State -> (exn + A) * State.

Definition ret {A} (a : A) : M A := fun s => (inr a, s).

Definition bind {A B} (m : M A) (k : A -> M B) : M B :=
  fun s =>
    match m s with
    | (inr a, s') => k a s'
    | (inl e, s') => (inl e, s')
    end.

Definition raise {A} (e : exn) : M A := fun s => (inl e, s).

(** [try: m  except Exception as e: h e]. *)
Definition try_except {A} (m : M A) (h : exn -> M A) : M A :=
  fun s =>
    match m s with
    | (inr a, s') => (inr a, s')
    | (inl e, s') => h e s'
    end.

Declare Scope py_scope.
Delimit Scope py_scope with py.
Notation "x <- m ;; k" := (bind m (fun x => k))
  (at level 61, m at next level, right associativity) : py_scope.
Notation "m ;; k" := (bind m (fun _ => k))
  (at level 61, right associativity) : py_scope.
Open Scope py_scope.

(** The state once [e] has happened. *)
Definition logged (s : State) (e : event) : State :=
  {| log := log s ++ [e]; session_summary := session_summary s |}.

Definition emit (e : event) : M unit := fun s => (inr tt, logged s e).

(** A remote call: recorded in the history, answered from the history
    before it. *)
Definition remote {A} (r : request) (answer : history -> exn + A) : M A :=
  fun s => (answer (log s), logged s (Call r)).

Definition of_result {A} (r : exn + A) : M A := fun s => (r, s).

Definition of_option {A} (e : exn) (o : option A) : M A :=
  match o with Some a => ret a | None => raise e end.

Definition get_session_summary : M (option str) :=
  fun s => (inr (session_summary s), s).

Definition set_session_summary (v : str) : M unit :=
  fun s => (inr tt, {| log := log s; session_summary := Some v |}).

(** ** The script *)

Definition nl : str := [10%N].

(** Prompt header for combined summarization. *)
Definition PROMPT_HEADER : str :=
  lit "You are a professional video summarizer. You will be provided with multiple video transcripts." ++ nl ++
  lit "Summarize the overall combined insights from all these videos together in clear bullet points within 350 words." ++ nl ++
  lit "Include:" ++ nl ++
  lit "- Key highlights from each video" ++ nl ++
  lit "- Common themes/topics discussed" ++ nl ++
  lit "- Speaker-specific important notes if available" ++ nl ++
  lit "- Any contrasts or different viewpoints between videos" ++ nl ++
  lit "- A final 2-line overall takeaway conclusion." ++ nl ++
  nl ++
  lit "Here are the combined transcripts: " ++ nl.

(** The header of the Teams message: two asterisks, U+1F4FD U+FE0F (the
    film projector), the title, two asterisks, and an empty line. *)
Definition TEAMS_HEADER : str :=
  lit "**" ++ [128253%N; 65039%N] ++ lit " Combined Video Summary**" ++ nl ++ nl.

(** The separator line in front of the transcript number [idx]. *)
Definition separator (idx : nat) : str :=
  nl ++ nl ++ lit "=== Transcript " ++ str_of_nat idx ++ lit " ===" ++ nl.

(** The f-string of [ask_chatbot]; the apostrophe of "user's" is
    U+2019. *)
Definition chatbot_prompt (summary_text question : str) : str :=
  lit "You are an assistant. Based on the following video summary, answer the user"
  ++ [8217%N] ++ lit "s question clearly and briefly." ++ nl ++
  nl ++
  lit "Video Summary:" ++ nl ++
  summary_text ++ nl ++
  nl ++
  lit "User Question:" ++ nl ++
  question ++ nl ++
  nl ++
  lit "Answer:".

Section Script.

Variable env : Env.

(** Pulls full text transcript from a YouTube URL. *)
Definition extract_transcript (youtube_url : str) : M str :=
  parts <- of_option (Exn (lit "ValueError") (lit "empty separator"))
             (split (lit "v=") youtube_url) ;;
  video_id <- of_option (Exn (lit "IndexError") (lit "list index out of range"))
                (last_item parts) ;;
  segments <- remote (Get_transcript video_id) (fun h => get_transcript env h video_id) ;;
  ret (join (lit " ") (map caption.text segments)).

(** Handles YouTube or any HTTP-served transcript text. *)
Definition fetch_transcript (source : str) : M str :=
  if contains (lit "youtube.com") source then extract_transcript source
  else
    resp <- remote (Requests_get source) (fun h => http_get env h source) ;;
    of_result (requests.raise_for_status resp) ;;
    ret (requests.text resp).

(** Calls the Gemini text model to summarize. *)
Definition generate_summary (combined_transcript : str) : M str :=
  let model := lit "gemini-2.0-flash" in
  let contents := [PROMPT_HEADER ++ combined_transcript] in
  resp <- remote (Generate_content model contents)
            (fun h => generate_content env h model contents) ;;
  ret (genai.text resp).

(** Calls the Gemini embedding model to vectorize the transcript. *)
Definition generate_embedding (transcript : str) : M (list genai.ContentEmbedding) :=
  let model := lit "gemini-embedding-exp-03-07" in
  resp <- remote (Embed_content model transcript)
            (fun h => embed_content env h model transcript) ;;
  ret (genai.embeddings resp).

(** Posts summary text to a Microsoft Teams channel via webhook. *)
Definition post_to_teams (summary_text : str) : M unit :=
  let payload := JDict [(lit "text", JStr (TEAMS_HEADER ++ summary_text))] in
  resp <- remote (Requests_post (TEAMS_WEBHOOK_URL env) payload)
            (fun h => http_post env h (TEAMS_WEBHOOK_URL env) payload) ;;
  if negb (requests.status_code resp =? 200)%Z
  then emit (St_error (lit "Teams webhook failed: " ++ requests.text resp))
  else ret tt.

(** Generates an answer from Gemini based on the summary and user
    question. *)
Definition ask_chatbot (summary_text question : str) : M str :=
  let model := lit "gemini-2.0-flash" in
  let prompt := chatbot_prompt summary_text question in
  resp <- remote (Generate_content model [prompt])
            (fun h => generate_content env h model [prompt]) ;;
  ret (genai.text resp).

(** [st.write(f"Fetching transcript {idx} of {len(urls)}")]. *)
Definition fetching_line (idx n : nat) : event :=
  St_write [VStr (lit "Fetching transcript " ++ str_of_nat idx
                  ++ lit " of " ++ str_of_nat n)].

(** [st.error(f"Error fetching transcript for {url}: {e}")]. *)
Definition fetch_error_line (url : str) (e : exn) : event :=
  St_error (lit "Error fetching transcript for " ++ url ++ lit ": " ++ exn_msg e).

(** The loop [for idx, url in enumerate(urls, 1)] over what is left of
    [urls]; [n] is [len(urls)] of the whole list, the accumulator is
    [combined_transcript]. *)
Fixpoint fetch_loop (n idx : nat) (urls : list str) (combined_transcript : str)
  : M str :=
  match urls with
  | [] => ret combined_transcript
  | url :: rest =>
      emit (fetching_line idx n) ;;
      combined_transcript <-
        try_except
          (text <- fetch_transcript url ;;
           ret (combined_transcript ++ separator idx ++ text))
          (fun e =>
             emit (fetch_error_line url e) ;;
             ret (combined_transcript ++ [])) ;;
      fetch_loop n (S idx) rest combined_transcript
  end.

(** The first spinner block of the button handler: the Aggregated
    Document of [urls]. *)
Definition fetch_spinner (n : nat) : event :=
  St_spinner (lit "Fetching transcripts for " ++ str_of_nat n ++ lit " video(s)...").

Definition fetch_all (urls : list str) : M str :=
  emit (fetch_spinner (List.length urls)) ;;
  fetch_loop (List.length urls) 1 urls [].

(** The second spinner block: everything from the summary on, under one
    [try]. *)
(** [st.error(f"Error generating summary: {e}")]. *)
Definition summary_error_line (e : exn) : event :=
  St_error (lit "Error generating summary: " ++ exn_msg e).

Definition summary_spinner : event :=
  St_spinner (lit "Generating combined summary...").

Definition summarize (combined_transcript : str) (post_to_teams_checkbox : bool)
  : M unit :=
  emit summary_spinner ;;
  try_except
    (summary <- generate_summary combined_transcript ;;
     emit (St_subheader (lit "Combined Detailed Notes")) ;;
     emit (St_write [VStr summary]) ;;
     emit (St_success (lit "Summary generated successfully!")) ;;
     (if post_to_teams_checkbox
      then post_to_teams summary ;;
           emit (St_success (lit "Summary posted to Microsoft Teams!"))
      else ret tt) ;;
     embedding <- generate_embedding combined_transcript ;;
     emit (St_write [VStr (lit "Embedding (first 5 dims):");
                     VEmbeddings (firstn 5 embedding)]) ;;
     set_session_summary summary)
    (fun e => emit (summary_error_line e)).

(** The [else] branch of the button handler, from the list of sources
    on. *)
Definition combined_summary (urls : list str) (post_to_teams_checkbox : bool)
  : M unit :=
  combined_transcript <- fetch_all urls ;;
  summarize combined_transcript post_to_teams_checkbox.

(** [[u.strip() for u in urls_input.split(",") if u.strip()]]. *)
Definition parse_urls (urls_input : str) : option (list str) :=
  option_map (fun parts => filter truthy (map strip parts))
    (split (lit ",") urls_input).

(** [if st.button("Generate Combined Summary"): ...] when the button was
    pressed. *)
Definition on_generate (urls_input : str) (post_to_teams_checkbox : bool) : M unit :=
  if negb (truthy urls_input)
  then emit (St_warning (lit "Please enter at least one URL."))
  else
    urls <- of_option (Exn (lit "ValueError") (lit "empty separator"))
              (parse_urls urls_input) ;;
    combined_summary urls post_to_teams_checkbox.

(** [st.error(f"Error in chatbot response: {e}")]. *)
Definition chatbot_error_line (e : exn) : event :=
  St_error (lit "Error in chatbot response: " ++ exn_msg e).

(** The chatbot interface at the end of the script: shown when Q&A is
    enabled and a non-empty summary is stored. *)
Definition chatbot (enable_chatbot ask_bot : bool) (question : str) : M unit :=
  stored <- get_session_summary ;;
  match stored with
  | Some summary =>
      if enable_chatbot && truthy summary then
        emit (St_markdown (lit "---")) ;;
        emit (St_subheader (lit "Chatbot Q&A")) ;;
        if ask_bot && truthy question then
          emit (St_spinner (lit "Bot is thinking...")) ;;
          try_except
            (answer <- ask_chatbot summary question ;;
             emit (St_write [VStr (lit "**Answer:**"); VStr answer]))
            (fun e => emit (chatbot_error_line e))
        else ret tt
      else ret tt
  | None => ret tt
  end.

(** What the user did before a run of the script. *)
Record Inputs := {
  urls_input : str;
  post_to_teams_checkbox : bool;
  enable_chatbot : bool;
  generate_pressed : bool;
  chat_question : str;
  ask_bot_pressed : bool
}.

(** One run of the script, top to bottom. *)
Definition app (i : Inputs) : M unit :=
  emit (St_title (lit "Multi-Video Transcript to Combined Summary & Q&A")) ;;
  (if generate_pressed i
   then on_generate (urls_input i) (post_to_teams_checkbox i)
   else ret tt) ;;
  chatbot (enable_chatbot i) (ask_bot_pressed i) (chat_question i).

End Script.

(** ** Sample worlds *)

Module Sample.

Definition response (status : Z) (why url body : str) : requests.Response :=
  {| requests.status_code := status; requests.reason := why;
     requests.url := url; requests.text := body |}.

Definition cue (words : str) : caption.t :=
  {| caption.text := words; caption.start := S754_zero false;
     caption.duration := S754_zero false |}.

Definition unreachable : exn := Exn (lit "ConnectionError") (lit "unreachable").
Definition quota : exn := Exn (lit "ServerError") (lit "quota exceeded").

(** Every service answers. *)
Definition fine : Env :=
  {| TEAMS_WEBHOOK_URL := lit "https://teams.example/hook";
     get_transcript := fun _ _ => inr [cue (lit "Hello"); cue (lit "world")];
     http_get := fun _ u => inr (response 200 (lit "OK") u (lit "Hello world"));
     http_post := fun _ u _ => inr (response 200 (lit "OK") u (lit "1"));
     generate_content := fun _ _ _ => inr {| genai.text := lit "- Point A" |};
     embed_content := fun _ _ _ =>
       inr {| genai.embeddings := [{| genai.values := [S754_zero false] |}] |} |}.

Definition with_http_get (get : history -> str -> exn + requests.Response)
  (w : Env) : Env :=
  {| TEAMS_WEBHOOK_URL := TEAMS_WEBHOOK_URL w;
     get_transcript := get_transcript w;
     http_get := get;
     http_post := http_post w;
     generate_content := generate_content w;
     embed_content := embed_content w |}.

Definition with_http_post (post : history -> str -> json -> exn + requests.Response)
  (w : Env) : Env :=
  {| TEAMS_WEBHOOK_URL := TEAMS_WEBHOOK_URL w;
     get_transcript := get_transcript w;
     http_get := http_get w;
     http_post := post;
     generate_content := generate_content w;
     embed_content := embed_content w |}.

(** The server answers every GET with 304 and a body. *)
Definition not_modified : Env :=
  with_http_get
    (fun _ u => inr (response 304 (lit "Not Modified") u (lit "cached copy")))
    fine.

(** The server answers every GET with 404. *)
Definition not_found : Env :=
  with_http_get
    (fun _ u => inr (response 404 (lit "Not Found") u (lit "no such page")))
    fine.

(** Only [http://a.example/1.txt] can be fetched. *)
Definition first_only : Env :=
  with_http_get
    (fun _ u =>
       if list_eq_dec N.eq_dec u (lit "http://a.example/1.txt")
       then inr (response 200 (lit "OK") u (lit "Hello world"))
       else inl unreachable)
    fine.

(** The webhook cannot be reached: the POST itself raises. *)
Definition webhook_unreachable : Env :=
  with_http_post (fun _ _ _ => inl unreachable) fine.

(** The webhook answers 500. *)
Definition webhook_rejects : Env :=
  with_http_post
    (fun _ u _ => inr (response 500 (lit "Internal Server Error") u (lit "boom")))
    fine.

(** The embedding model fails; the rest answers. *)
Definition embedding_down : Env :=
  {| TEAMS_WEBHOOK_URL := TEAMS_WEBHOOK_URL fine;
     get_transcript := get_transcript fine;
     http_get := http_get fine;
     http_post := http_post fine;
     generate_content := generate_content fine;
     embed_content := fun _ _ _ => inl quota |}.

(** The text model fails; the rest answers. *)
Definition summarizer_down : Env :=
  {| TEAMS_WEBHOOK_URL := TEAMS_WEBHOOK_URL fine;
     get_transcript := get_transcript fine;
     http_get := http_get fine;
     http_post := http_post fine;
     generate_content := fun _ _ _ => inl quota;
     embed_content := embed_content fine |}.

(** No transcript can be fetched; the models answer. *)
Definition sources_down : Env :=
  {| TEAMS_WEBHOOK_URL := TEAMS_WEBHOOK_URL fine;
     get_transcript := fun _ _ => inl unreachable;
     http_get := fun _ _ => inl unreachable;
     http_post := http_post fine;
     generate_content := generate_content fine;
     embed_content := embed_content fine |}.

Definition one_url : list str := [lit "http://a.example/1.txt"].
Definition two_urls : list str :=
  [lit "http://a.example/1.txt"; lit "http://b.example/2.txt"].

(** The user asks a question, without pressing "Generate". *)
Definition asking : Inputs :=
  {| urls_input := []; post_to_teams_checkbox := true; enable_chatbot := true;
     generate_pressed := false; chat_question := lit "What is point A?";
     ask_bot_pressed := true |}.

(** The user presses "Generate" on one URL, with Teams and Q&A on. *)
Definition generating : Inputs :=
  {| urls_input := lit "http://a.example/1.txt"; post_to_teams_checkbox := true;
     enable_chatbot := true; generate_pressed := true; chat_question := [];
     ask_bot_pressed := false |}.

End Sample.

(** ** Specification-side notions *)

(** [sub] occurs somewhere in [s], as a contiguous run. *)
Definition occurs (sub s : str) : Prop :=
  exists before after, s = before ++ sub ++ after.

(** What one source contributes to the Aggregated Document, in the
    words of the specification: for a fetched transcript a blank line,
    the separator line of its position and the text; nothing for a
    failed fetch. *)
Definition contribution (i : nat) (outcome : exn + str) : str :=
  match outcome with
  | inr transcript =>
      [10%N; 10%N] ++ lit "=== Transcript " ++ str_of_nat i ++ lit " ==="
      ++ [10%N] ++ transcript
  | inl _ => []
  end.

(** The contributions of the outcomes at positions [i], [i+1], ...,
    one after the other. *)
Fixpoint aggregated (i : nat) (outcomes : list (exn + str)) : str :=
  match outcomes with
  | [] => []
  | o :: os => contribution i o ++ aggregated (S i) os
  end.

(** The state in which one turn of the loop leaves the session: after
    the fetch, and after the error line when the fetch raised. *)
Definition after_attempt (env : Env) (url : str) (started : State) : State :=
  let (outcome, fetched) := fetch_transcript env url started in
  match outcome with
  | inr _ => fetched
  | inl e => logged fetched (fetch_error_line url e)
  end.

(** The states in which the loop makes its fetches, source by source. *)
Fixpoint fetch_points (env : Env) (n idx : nat) (urls : list str) (s : State)
  : list State :=
  match urls with
  | [] => []
  | url :: rest =>
      let started := logged s (fetching_line idx n) in
      started :: fetch_points env n (S idx) rest (after_attempt env url started)
  end.

(** The state at the end of the loop. *)
Fixpoint loop_end (env : Env) (n idx : nat) (urls : list str) (s : State) : State :=
  match urls with
  | [] => s
  | url :: rest =>
      loop_end env n (S idx) rest
        (after_attempt env url (logged s (fetching_line idx n)))
  end.

(** The outcome of each fetch of a run over [urls] from [s], in the
    order of [urls]. *)
Definition fetch_outcomes (env : Env) (urls : list str) (s : State)
  : list (exn + str) :=
  map (fun at_ => fst (fetch_transcript env (fst at_) (snd at_)))
    (combine urls
       (fetch_points env (List.length urls) 1 urls
          (logged s (fetch_spinner (List.length urls))))).

(** A computation only adds to the history. *)
Definition extends {A} (m : M A) : Prop :=
  forall s, exists events, log (snd (m s)) = log s ++ events.

(** A computation leaves the stored summary alone. *)
Definition keeps_summary {A} (m : M A) : Prop :=
  forall s, session_summary (snd (m s)) = session_summary s.

(** The remote calls of a history, oldest first. *)
Fixpoint calls (h : history) : list request :=
  match h with
  | [] => []
  | Call r :: h' => r :: calls h'
  | _ :: h' => calls h'
  end.

(** The keys of a JSON object, one per field. *)
Definition keys (j : json) : list str :=
  match j with
  | JDict items => map fst items
  | JStr _ => []
  end.

(** The values of the fields of a JSON object named [k]. *)
Definition fields_named (k : str) (j : json) : list json :=
  match j with
  | JDict items =>
      map snd (filter (fun kv => if list_eq_dec N.eq_dec (fst kv) k then true else false) items)
  | JStr _ => []
  end.

(** The remote call the fetcher makes for a source: the transcript
    service keyed by the last piece of the split on ["v="], or a GET of
    the source itself. *)
Definition fetch_request (url : str) : request :=
  if contains (lit "youtube.com") url
  then Get_transcript (last (split_scan (lit "v=") 0 [] url) [])
  else Requests_get url.

(** What one turn of the loop adds to the history, given how its fetch
    went. *)
Definition turn_events (n idx : nat) (url : str) (outcome : exn + str)
  : list event :=
  [fetching_line idx n; Call (fetch_request url)]
  ++ match outcome with
     | inl e => [fetch_error_line url e]
     | inr _ => []
     end.

(** The turns of the sources at positions [idx], [idx+1], ... *)
Fixpoint phase_events (n idx : nat) (turns : list (str * (exn + str)))
  : list event :=
  match turns with
  | [] => []
  | (url, outcome) :: rest =>
      turn_events n idx url outcome ++ phase_events n (S idx) rest
  end.

(** A fetch that raised. *)
Definition failed (outcome : exn + str) : Prop := exists e, outcome = inl e.

(** A character of the text area that separates or pads: the comma or
    white space. *)
Definition blank (c : N) : Prop := c = 44%N \/ isspace c = true.

(** A source reference as the parser hands it on: not empty, nothing to
    strip, no comma. *)
Definition clean (u : str) : Prop :=
  u <> [] /\ strip u = u /\ ~ In 44%N u.

(** The remote calls of the handler's second block when nothing raises,
    in order: the summary, the post when the box is ticked, the
    embedding. *)
Definition summary_calls (env : Env) (document : str) (checkbox : bool)
    (summary : str) : list request :=
  Generate_content (lit "gemini-2.0-flash") [PROMPT_HEADER ++ document]
  :: (if checkbox
      then [Requests_post (TEAMS_WEBHOOK_URL env)
              (JDict [(lit "text", JStr (TEAMS_HEADER ++ summary))])]
      else [])
  ++ [Embed_content (lit "gemini-embedding-exp-03-07") document].

(** The messages of [st.error] in a history, oldest first. *)
Fixpoint errors_shown (h : history) : list str :=
  match h with
  | [] => []
  | St_error msg :: h' => msg :: errors_shown h'
  | _ :: h' => errors_shown h'
  end.

(** * Properties *)

(** ** Strings *)

Lemma startswith_spec (p s : str) :
  startswith p s = true <-> exists t, s = p ++ t.
Proof.
  revert s; induction p as [|a p IH]; intros s; simpl.
  - split; [intros _; now exists s | reflexivity].
  - destruct s as [|b s].
    + split; [discriminate | intros [t Ht]; discriminate].
    + rewrite andb_true_iff, N.eqb_eq, IH. split.
      * intros [-> [t ->]]. now exists t.
      * intros [t Ht]. injection Ht as -> ->. split; [reflexivity | now exists t].
Qed.

Lemma contains_spec (sub s : str) :
  contains sub s = true <-> occurs sub s.
Proof.
  unfold occurs. induction s as [|c s IH].
  - simpl. rewrite orb_false_r, startswith_spec. split.
    + intros [t Ht]. now exists [], t.
    + intros [a [b H]]. destruct a; [now exists b | discriminate].
  - cbn [contains]. rewrite orb_true_iff, startswith_spec, IH. split.
    + intros [[t Ht] | [a [b H]]].
      * now exists [], t.
      * exists (c :: a), b. now rewrite H.
    + intros [a [b H]]. destruct a as [|c' a].
      * left. now exists b.
      * right. injection H as -> ->. now exists a, b.
Qed.

Lemma contains_false (sub s : str) :
  contains sub s = false <-> ~ occurs sub s.
Proof.
  rewrite <- contains_spec. destruct (contains sub s); split; congruence.
Qed.

Lemma contains_tail (sub s : str) (c : N) :
  contains sub (c :: s) = false ->
  startswith sub (c :: s) = false /\ contains sub s = false.
Proof. cbn [contains]. now rewrite orb_false_iff. Qed.

Lemma split_scan_nonempty (sep : str) (s : str) :
  forall skip cur, split_scan sep skip cur s <> [].
Proof.
  induction s as [|c s IH]; intros skip cur; simpl; [discriminate|].
  destruct skip; [|apply IH].
  destruct (startswith sep (c :: s)); [discriminate | apply IH].
Qed.

(** Without an occurrence of the separator there is one piece: the
    whole string. *)
Lemma split_scan_absent (sep s : str) :
  forall cur, contains sep s = false -> split_scan sep 0 cur s = [cur ++ s].
Proof.
  induction s as [|c s IH]; intros cur H.
  - simpl. now rewrite app_nil_r.
  - apply contains_tail in H as [H0 H1].
    cbn [split_scan]. rewrite H0, IH by assumption.
    now rewrite <- app_assoc.
Qed.

Lemma last_head_irrelevant (l : list str) (a d : str) :
  l <> [] -> last (a :: l) d = last l d.
Proof. destruct l; [congruence | reflexivity]. Qed.

Lemma split_scan_step (sep cur s : str) (c : N) :
  split_scan sep 0 cur (c :: s) =
  if startswith sep (c :: s)
  then cur :: split_scan sep (List.length sep - 1) [] s
  else split_scan sep 0 (cur ++ [c]) s.
Proof. reflexivity. Qed.

Lemma split_scan_skip (sep cur s : str) (c : N) (k : nat) :
  split_scan sep (S k) cur (c :: s) = split_scan sep k cur s.
Proof. reflexivity. Qed.

(** The last piece of a split on ["v="] is what follows the last
    ["v="]. *)
Lemma split_scan_last_v (n : nat) :
  forall before cur after d,
    List.length before <= n ->
    contains (lit "v=") after = false ->
    last (split_scan (lit "v=") 0 cur (before ++ lit "v=" ++ after)) d = after.
Proof.
  induction n as [n IH] using lt_wf_ind.
  intros before cur after d Hlen Hafter.
  destruct before as [|c before].
  - change ([] ++ lit "v=" ++ after) with (118%N :: 61%N :: after).
    rewrite split_scan_step.
    replace (startswith _ _) with true by reflexivity.
    change (List.length (lit "v=") - 1) with 1.
    rewrite split_scan_skip, split_scan_absent by assumption.
    reflexivity.
  - destruct before as [|c' before].
    + change ([c] ++ lit "v=" ++ after) with (c :: [] ++ lit "v=" ++ after).
      rewrite split_scan_step. replace (startswith _ _) with false
        by (cbn; now rewrite andb_false_r).
      apply (IH 0 ltac:(simpl in Hlen; lia) [] (cur ++ [c]) after d);
        [simpl; lia | assumption].
    + change ((c :: c' :: before) ++ lit "v=" ++ after)
        with (c :: c' :: (before ++ lit "v=" ++ after)).
      rewrite split_scan_step.
      destruct (startswith (lit "v=") (c :: c' :: before ++ lit "v=" ++ after)).
      * rewrite last_head_irrelevant by apply split_scan_nonempty.
        change (List.length (lit "v=") - 1) with 1.
        rewrite split_scan_skip.
        apply (IH (List.length before)); [simpl in Hlen; lia | lia | assumption].
      * apply (IH (List.length (c' :: before)) ltac:(simpl in *; lia)
                 (c' :: before)); [simpl; lia | assumption].
Qed.

Lemma split_v (s : str) :
  split (lit "v=") s = Some (split_scan (lit "v=") 0 [] s).
Proof. reflexivity. Qed.

Lemma last_default_irrelevant (l : list str) (d d' : str) :
  l <> [] -> last l d = last l d'.
Proof.
  induction l as [|a l IH]; [congruence|]. intros _.
  destruct l as [|b l]; [reflexivity|].
  change (last (b :: l) d = last (b :: l) d'). now apply IH.
Qed.

Lemma last_item_last (l : list str) :
  l <> [] -> last_item l = Some (last l []).
Proof.
  destruct l as [|p ps]; [congruence|]. intros _. simpl last_item. f_equal.
  destruct ps as [|q ps]; [reflexivity|].
  change (last (q :: ps) p = last (q :: ps) []).
  now apply last_default_irrelevant.
Qed.

Example split_on_v :
  split (lit "v=") (lit "https://www.youtube.com/watch?v=abc&t=v=9")
  = Some [lit "https://www.youtube.com/watch?"; lit "abc&t="; lit "9"].
Proof. reflexivity. Qed.

Example parse_urls_strips_and_drops :
  parse_urls (lit " http://a.example/1.txt , ,http://b.example/2.txt,")
  = Some Sample.two_urls.
Proof. reflexivity. Qed.

Example str_of_nat_decimal : str_of_nat 12 = lit "12" /\ str_of_nat 0 = lit "0".
Proof. split; reflexivity. Qed.

(** ** The Source Fetcher *)

Section Fetcher.

Variable env : Env.

(** The video branch: one call to the transcript service, keyed by the
    last piece of the split on ["v="]; the captions joined by spaces. *)
Lemma extract_transcript_run (youtube_url : str) (s : State) :
  let video_id := last (split_scan (lit "v=") 0 [] youtube_url) [] in
  extract_transcript env youtube_url s =
  (match get_transcript env (log s) video_id with
   | inr segments => inr (join (lit " ") (map caption.text segments))
   | inl e => inl e
   end,
   logged s (Call (Get_transcript video_id))).
Proof.
  intros video_id. unfold extract_transcript.
  rewrite split_v. unfold bind at 1. cbn [of_option ret].
  rewrite (last_item_last (@split_scan_nonempty _ _ _ _)).
  unfold bind, of_option, remote, ret. fold video_id.
  now destruct (get_transcript env (log s) video_id).
Qed.

(** The generic branch: one GET, then [raise_for_status], then the
    body. *)
Lemma fetch_transcript_generic (source : str) (s : State) :
  contains (lit "youtube.com") source = false ->
  fetch_transcript env source s =
  (match http_get env (log s) source with
   | inr resp =>
       match requests.raise_for_status resp with
       | inr _ => inr (requests.text resp)
       | inl e => inl e
       end
   | inl e => inl e
   end,
   logged s (Call (Requests_get source))).
Proof.
  intros H. unfold fetch_transcript. rewrite H.
  unfold bind, remote, of_result, ret, logged.
  destruct (http_get env (log s) source) as [e|resp]; [reflexivity|].
  now destruct (requests.raise_for_status resp) as [e|[]].
Qed.

Lemma fetch_transcript_video (source : str) (s : State) :
  contains (lit "youtube.com") source = true ->
  fetch_transcript env source s = extract_transcript env source s.
Proof. intros H. unfold fetch_transcript. now rewrite H. Qed.

(** C9: the fetcher takes the video branch exactly when ["youtube.com"]
    occurs somewhere in the source; on that branch the identifier sent
    to the transcript service is what follows the last ["v="] of the
    source, and the whole source when it has no ["v="]. *)
Theorem fetch_transcript_dispatch (source : str) (s : State) :
  (occurs (lit "youtube.com") source <->
   exists video_id,
     log (snd (fetch_transcript env source s))
     = log s ++ [Call (Get_transcript video_id)])
  /\ (occurs (lit "youtube.com") source ->
      forall before after,
        source = before ++ lit "v=" ++ after ->
        ~ occurs (lit "v=") after ->
        log (snd (fetch_transcript env source s))
        = log s ++ [Call (Get_transcript after)])
  /\ (occurs (lit "youtube.com") source ->
      ~ occurs (lit "v=") source ->
      log (snd (fetch_transcript env source s))
      = log s ++ [Call (Get_transcript source)]).
Proof.
  repeat split.
  - intros H. apply contains_spec in H.
    rewrite fetch_transcript_video, extract_transcript_run by assumption.
    eexists. reflexivity.
  - intros [video_id H].
    destruct (contains (lit "youtube.com") source) eqn:E;
      [now apply contains_spec|].
    rewrite fetch_transcript_generic in H by assumption. cbn [snd log logged] in H.
    apply app_inv_head in H. discriminate.
  - intros H before after -> Hafter.
    apply contains_spec in H. apply contains_false in Hafter.
    rewrite fetch_transcript_video, extract_transcript_run by assumption.
    cbn [snd log logged].
    now rewrite (split_scan_last_v (n := List.length before)).
  - intros H Habsent.
    apply contains_spec in H. apply contains_false in Habsent.
    rewrite fetch_transcript_video, extract_transcript_run by assumption.
    cbn [snd log logged].
    now rewrite split_scan_absent.
Qed.

End Fetcher.

Lemma fetch_transcript_dispatch_witness :
  log (snd (fetch_transcript Sample.fine
              (lit "https://www.youtube.com/watch?v=abc123") initial))
  = log initial ++ [Call (Get_transcript (lit "abc123"))].
Proof.
  apply (proj1 (proj2 (fetch_transcript_dispatch Sample.fine
                         (lit "https://www.youtube.com/watch?v=abc123") initial)))
    with (before := lit "https://www.youtube.com/watch?").
  - exists (lit "https://www."), (lit "/watch?v=abc123"). reflexivity.
  - reflexivity.
  - apply contains_false. reflexivity.
Defined.

(** A video URL without ["v="]: the whole URL is sent as the
    identifier. *)
Example embed_url_sent_whole :
  calls (log (snd (fetch_transcript Sample.fine
                     (lit "https://www.youtube.com/embed/abc123") initial)))
  = [Get_transcript (lit "https://www.youtube.com/embed/abc123")].
Proof. reflexivity. Qed.

(** C5, as the code has it: on the generic branch the fetch issues one
    GET; it returns the response body exactly when the status is outside
    400..599, so for every 2xx status, and raises [HTTPError] for every
    4xx and 5xx status. *)
Theorem generic_fetch_by_status (env : Env) (source : str) (s : State)
    (resp : requests.Response) :
  contains (lit "youtube.com") source = false ->
  http_get env (log s) source = inr resp ->
  let outcome := fst (fetch_transcript env source s) in
  log (snd (fetch_transcript env source s)) = log s ++ [Call (Requests_get source)]
  /\ ((exists body, outcome = inr body)
      <-> ~ (400 <= requests.status_code resp < 600)%Z)
  /\ (forall body, outcome = inr body -> body = requests.text resp)
  /\ ((200 <= requests.status_code resp < 300)%Z ->
      outcome = inr (requests.text resp))
  /\ ((400 <= requests.status_code resp < 600)%Z ->
      exists msg, outcome = inl (Exn (lit "HTTPError") msg)).
Proof.
  intros Hgeneric Hget outcome. subst outcome.
  rewrite (fetch_transcript_generic env source s Hgeneric), Hget.
  cbn [fst snd log logged].
  unfold requests.raise_for_status, requests.http_error_msg.
  destruct (400 <=? requests.status_code resp)%Z eqn:E4;
    destruct (requests.status_code resp <? 500)%Z eqn:E5;
    destruct (500 <=? requests.status_code resp)%Z eqn:E6;
    destruct (requests.status_code resp <? 600)%Z eqn:E7;
    cbn [andb];
    repeat match goal with
      | H : (_ <=? _)%Z = true |- _ => apply Z.leb_le in H
      | H : (_ <=? _)%Z = false |- _ => apply Z.leb_gt in H
      | H : (_ <? _)%Z = true |- _ => apply Z.ltb_lt in H
      | H : (_ <? _)%Z = false |- _ => apply Z.ltb_ge in H
      end;
    (split; [reflexivity|]);
    (split; [split; [intros [body Hb]; first [discriminate | lia]
                    | intros Hs; first [now eexists | lia]] |]);
    (split; [intros body Hb; first [discriminate | congruence] |]);
    (split; [intros Hs; first [reflexivity | lia]
            | intros Hs; first [now eexists | lia]]).
Qed.

Lemma generic_fetch_by_status_witness :
  exists msg,
    fst (fetch_transcript Sample.not_found (lit "http://a.example/1.txt") initial)
    = inl (Exn (lit "HTTPError") msg).
Proof.
  apply (generic_fetch_by_status Sample.not_found (lit "http://a.example/1.txt")
           initial
           (resp := Sample.response 404 (lit "Not Found")
                      (lit "http://a.example/1.txt") (lit "no such page"))).
  - reflexivity.
  - reflexivity.
  - simpl. lia.
Defined.

(** C5 as stated fails: a 304 answer is not a 2xx answer, and the fetch
    still returns its body. *)
Lemma generic_fetch_304_succeeds :
  contains (lit "youtube.com") (lit "http://a.example/1.txt") = false
  /\ http_get Sample.not_modified (log initial) (lit "http://a.example/1.txt")
     = inr (Sample.response 304 (lit "Not Modified")
              (lit "http://a.example/1.txt") (lit "cached copy"))
  /\ fst (fetch_transcript Sample.not_modified (lit "http://a.example/1.txt") initial)
     = inr (lit "cached copy")
  /\ ~ (200 <= 304 < 300)%Z.
Proof. repeat split; try reflexivity. lia. Qed.

(** ** What computations do to the session *)

Section Frames.

Context {A B : Type}.

Lemma extends_ret (a : A) : extends (ret a).
Proof. intros s. exists []. cbn. now rewrite app_nil_r. Qed.

Lemma extends_raise (e : exn) : extends (@raise A e).
Proof. intros s. exists []. cbn. now rewrite app_nil_r. Qed.

Lemma extends_of_result (r : exn + A) : extends (of_result r).
Proof. intros s. exists []. cbn. now rewrite app_nil_r. Qed.

Lemma extends_of_option (e : exn) (o : option A) : extends (of_option e o).
Proof. destruct o; [apply extends_ret | apply extends_raise]. Qed.

Lemma extends_remote (r : request) (answer : history -> exn + A) :
  extends (remote r answer).
Proof. intros s. now exists [Call r]. Qed.

Lemma extends_bind (m : M A) (k : A -> M B) :
  extends m -> (forall a, extends (k a)) -> extends (bind m k).
Proof.
  intros Hm Hk s. unfold bind. destruct (Hm s) as [ev1 H1].
  destruct (m s) as [[e|a] s1]; cbn [snd] in *.
  - now exists ev1.
  - destruct (Hk a s1) as [ev2 H2]. exists (ev1 ++ ev2).
    now rewrite H2, H1, app_assoc.
Qed.

Lemma extends_try_except (m : M A) (h : exn -> M A) :
  extends m -> (forall e, extends (h e)) -> extends (try_except m h).
Proof.
  intros Hm Hh s. unfold try_except. destruct (Hm s) as [ev1 H1].
  destruct (m s) as [[e|a] s1]; cbn [snd] in *.
  - destruct (Hh e s1) as [ev2 H2]. exists (ev1 ++ ev2).
    now rewrite H2, H1, app_assoc.
  - now exists ev1.
Qed.

Lemma keeps_ret (a : A) : keeps_summary (ret a).
Proof. now intros s. Qed.

Lemma keeps_raise (e : exn) : keeps_summary (@raise A e).
Proof. now intros s. Qed.

Lemma keeps_of_result (r : exn + A) : keeps_summary (of_result r).
Proof. now intros s. Qed.

Lemma keeps_of_option (e : exn) (o : option A) : keeps_summary (of_option e o).
Proof. destruct o; [apply keeps_ret | apply keeps_raise]. Qed.

Lemma keeps_remote (r : request) (answer : history -> exn + A) :
  keeps_summary (remote r answer).
Proof. now intros s. Qed.

Lemma keeps_bind (m : M A) (k : A -> M B) :
  keeps_summary m -> (forall a, keeps_summary (k a)) -> keeps_summary (bind m k).
Proof.
  intros Hm Hk s. unfold bind. specialize (Hm s).
  destruct (m s) as [[e|a] s1]; cbn [snd] in *; [assumption|].
  now rewrite Hk.
Qed.

Lemma keeps_try_except (m : M A) (h : exn -> M A) :
  keeps_summary m -> (forall e, keeps_summary (h e)) ->
  keeps_summary (try_except m h).
Proof.
  intros Hm Hh s. unfold try_except. specialize (Hm s).
  destruct (m s) as [[e|a] s1]; cbn [snd] in *; [|assumption].
  now rewrite Hh.
Qed.

End Frames.

Lemma extends_emit (e : event) : extends (emit e).
Proof. intros s. now exists [e]. Qed.

Lemma keeps_emit (e : event) : keeps_summary (emit e).
Proof. now intros s. Qed.

Create HintDb frames.
#[local] Hint Resolve extends_ret extends_raise extends_of_result
  extends_of_option extends_remote extends_emit
  keeps_ret keeps_raise keeps_of_result keeps_of_option keeps_remote
  keeps_emit : frames.
#[local] Hint Extern 2 (extends (bind _ _)) =>
  apply extends_bind; [|intros ?] : frames.
#[local] Hint Extern 2 (extends (try_except _ _)) =>
  apply extends_try_except; [|intros ?] : frames.
#[local] Hint Extern 2 (keeps_summary (bind _ _)) =>
  apply keeps_bind; [|intros ?] : frames.
#[local] Hint Extern 2 (keeps_summary (try_except _ _)) =>
  apply keeps_try_except; [|intros ?] : frames.
#[local] Hint Extern 3 (extends (if ?b then _ else _)) => destruct b : frames.
#[local] Hint Extern 3 (keeps_summary (if ?b then _ else _)) => destruct b : frames.

(** ** The Aggregator *)

Section Aggregator.

Variable env : Env.

Lemma separator_contribution (idx : nat) (transcript : str) :
  separator idx ++ transcript = contribution idx (inr transcript).
Proof.
  unfold separator, contribution, nl. now repeat rewrite <- app_assoc.
Qed.

(** One run of the loop: each source adds its contribution behind what
    was gathered before it, whatever the other fetches did. *)
Lemma fetch_loop_run (n : nat) (urls : list str) :
  forall idx gathered s,
    fetch_loop env n idx urls gathered s =
    (inr (gathered ++
          aggregated idx
            (map (fun at_ => fst (fetch_transcript env (fst at_) (snd at_)))
               (combine urls (fetch_points env n idx urls s)))),
     loop_end env n idx urls s).
Proof.
  induction urls as [|url rest IH]; intros idx gathered s.
  - cbn. now rewrite app_nil_r.
  - cbn [fetch_loop fetch_points loop_end combine map aggregated fst snd].
    unfold bind, try_except, emit, ret, after_attempt.
    destruct (fetch_transcript env url (logged s (fetching_line idx n)))
      as [[e|transcript] fetched]; cbn [fst].
    + rewrite IH. cbn [contribution]. now rewrite !app_nil_r.
    + rewrite IH. now rewrite <- separator_contribution, !app_assoc.
Qed.

Lemma fetch_points_length (n : nat) (urls : list str) :
  forall idx s, List.length (fetch_points env n idx urls s) = List.length urls.
Proof.
  induction urls as [|url rest IH]; intros idx s; [reflexivity|].
  cbn. now rewrite IH.
Qed.

Lemma nth_error_combine {X Y} (xs : list X) (ys : list Y) :
  forall i,
    nth_error (combine xs ys) i =
    match nth_error xs i, nth_error ys i with
    | Some x, Some y => Some (x, y)
    | _, _ => None
    end.
Proof.
  revert ys. induction xs as [|x xs IH]; intros ys i.
  - now destruct i.
  - destruct ys as [|y ys]; destruct i as [|i]; cbn; try reflexivity.
    + now destruct (nth_error xs i).
    + apply IH.
Qed.

Lemma fetch_all_run (urls : list str) (s : State) :
  fst (fetch_all env urls s) = inr (aggregated 1 (fetch_outcomes env urls s)).
Proof.
  unfold fetch_all, fetch_outcomes. unfold bind at 1. cbn [emit].
  now rewrite fetch_loop_run.
Qed.

(** C1: the Aggregated Document is the concatenation, in the order of
    the input list, of one contribution per source: for the source at
    position [i] (from 1) the separator block and the fetched text when
    its fetch returns, nothing when it raises; the loop goes on to the
    remaining sources either way. *)
Theorem aggregated_document_in_order (urls : list str) (s : State) :
  fst (fetch_all env urls s) = inr (aggregated 1 (fetch_outcomes env urls s))
  /\ List.length (fetch_outcomes env urls s) = List.length urls
  /\ (forall i,
        nth_error (fetch_outcomes env urls s) i =
        match nth_error urls i,
              nth_error (fetch_points env (List.length urls) 1 urls
                           (logged s (fetch_spinner (List.length urls)))) i with
        | Some url, Some at_ => Some (fst (fetch_transcript env url at_))
        | _, _ => None
        end)
  /\ (forall i transcript,
        contribution i (inr transcript)
        = lit "

=== Transcript " ++ str_of_nat i ++ lit " ===
" ++ transcript)
  /\ (forall i e, contribution i (inl e) = []).
Proof.
  split; [apply fetch_all_run|]. split; [|split; [|split; reflexivity]].
  - unfold fetch_outcomes.
    rewrite length_map, length_combine, fetch_points_length. apply Nat.min_id.
  - intros i. unfold fetch_outcomes.
    rewrite nth_error_map, nth_error_combine.
    destruct (nth_error urls i) as [url|]; [|reflexivity].
    now destruct (nth_error (fetch_points _ _ _ _ _) i).
Qed.

Lemma fetch_transcript_frames (source : str) :
  extends (fetch_transcript env source) /\ keeps_summary (fetch_transcript env source).
Proof.
  unfold fetch_transcript, extract_transcript.
  split; destruct (contains (lit "youtube.com") source); auto 20 with frames.
Qed.

Lemma fetch_loop_frames (n : nat) (urls : list str) :
  forall idx gathered,
    extends (fetch_loop env n idx urls gathered)
    /\ keeps_summary (fetch_loop env n idx urls gathered).
Proof.
  induction urls as [|url rest IH]; intros idx gathered; cbn [fetch_loop].
  - auto with frames.
  - pose proof (fetch_transcript_frames url) as [He Hk].
    split.
    + apply extends_bind; [auto with frames | intros _].
      apply extends_bind; [auto 10 with frames | intros doc]. apply IH.
    + apply keeps_bind; [auto with frames | intros _].
      apply keeps_bind; [auto 10 with frames | intros doc]. apply IH.
Qed.

Lemma fetch_all_frames (urls : list str) :
  extends (fetch_all env urls) /\ keeps_summary (fetch_all env urls).
Proof.
  unfold fetch_all.
  destruct (fetch_loop_frames (List.length urls) urls 1 []) as [He Hk].
  split; auto with frames.
Qed.

End Aggregator.

(** The end-to-end scenario of the specification: source 1 returns
    "Hello world", source 2 cannot be fetched. *)
Example first_of_two_fetched :
  fst (fetch_all Sample.first_only Sample.two_urls initial)
  = inr (lit "

=== Transcript 1 ===
Hello world").
Proof. reflexivity. Qed.

(** A source keeps the number of its position when an earlier one
    fails. *)
Example second_of_two_fetched :
  fst (fetch_all Sample.first_only
         [lit "http://b.example/2.txt"; lit "http://a.example/1.txt"] initial)
  = inr (lit "

=== Transcript 2 ===
Hello world").
Proof. reflexivity. Qed.

(** ** The Summarizer, the Notifier and the Q&A Responder *)

Section Calls.

Variable env : Env.

(** C2: the one request of the Summarizer carries the header followed by
    the document, unchanged, and the model's answer to exactly that
    request is what comes back. *)
Theorem summary_request_is_header_then_document (document : str) (s : State) :
  log (snd (generate_summary env document s))
  = log s ++ [Call (Generate_content (lit "gemini-2.0-flash")
                      [PROMPT_HEADER ++ document])]
  /\ fst (generate_summary env document s)
     = match generate_content env (log s) (lit "gemini-2.0-flash")
               [PROMPT_HEADER ++ document] with
       | inr resp => inr (genai.text resp)
       | inl e => inl e
       end.
Proof.
  unfold generate_summary, bind, remote, ret.
  now destruct (generate_content env (log s) (lit "gemini-2.0-flash")
                  [PROMPT_HEADER ++ document]).
Qed.

(** C7: the one request of the Q&A Responder carries a prompt made of a
    fixed opening, the summary, a fixed middle part, the question and a
    fixed ending, whatever the summary and the question are. *)
Theorem qa_prompt_grounded :
  exists opening middle ending,
    forall (summary question : str) (s : State),
      log (snd (ask_chatbot env summary question s))
      = log s ++ [Call (Generate_content (lit "gemini-2.0-flash")
                          [opening ++ summary ++ middle ++ question ++ ending])].
Proof.
  exists (lit "You are an assistant. Based on the following video summary, answer the user"
          ++ [8217%N] ++ lit "s question clearly and briefly." ++ nl ++ nl
          ++ lit "Video Summary:" ++ nl),
         (nl ++ nl ++ lit "User Question:" ++ nl),
         (nl ++ nl ++ lit "Answer:").
  intros summary question s.
  unfold ask_chatbot, bind, remote, ret.
  destruct (generate_content env (log s) (lit "gemini-2.0-flash")
              [chatbot_prompt summary question]);
    cbn [snd log logged]; unfold chatbot_prompt;
    now repeat rewrite <- app_assoc.
Qed.

(** C8: the body of the Notifier's POST is an object with the single
    field ["text"], whose value is the header followed by the summary. *)
Theorem webhook_payload_shape (summary : str) (s : State) :
  exists body later,
    log (snd (post_to_teams env summary s))
    = log s ++ Call (Requests_post (TEAMS_WEBHOOK_URL env) body) :: later
    /\ keys body = [lit "text"]
    /\ fields_named (lit "text") body = [JStr (TEAMS_HEADER ++ summary)]
    /\ occurs summary (TEAMS_HEADER ++ summary)
    /\ TEAMS_HEADER = lit "**" ++ [128253%N; 65039%N]
                      ++ lit " Combined Video Summary**

".
Proof.
  exists (JDict [(lit "text", JStr (TEAMS_HEADER ++ summary))]).
  unfold post_to_teams, bind, remote.
  destruct (http_post env (log s) (TEAMS_WEBHOOK_URL env)
              (JDict [(lit "text", JStr (TEAMS_HEADER ++ summary))]))
    as [e|resp]; cbn [snd log logged].
  - exists []. repeat split.
    exists TEAMS_HEADER, []. now rewrite app_nil_r.
  - destruct (negb (requests.status_code resp =? 200)%Z);
      [exists [St_error (lit "Teams webhook failed: " ++ requests.text resp)]
      | exists []];
      cbn [emit ret snd log logged]; rewrite <- ?app_assoc;
      (repeat split; exists TEAMS_HEADER, []; now rewrite app_nil_r).
Qed.

End Calls.

(** ** The button handler *)

Section Handler.

Variable env : Env.

Lemma generate_summary_run (document : str) (s : State) :
  generate_summary env document s =
  (match generate_content env (log s) (lit "gemini-2.0-flash")
           [PROMPT_HEADER ++ document] with
   | inr resp => inr (genai.text resp)
   | inl e => inl e
   end,
   logged s (Call (Generate_content (lit "gemini-2.0-flash")
                     [PROMPT_HEADER ++ document]))).
Proof.
  unfold generate_summary, bind, remote, ret.
  now destruct (generate_content env (log s) (lit "gemini-2.0-flash")
                  [PROMPT_HEADER ++ document]).
Qed.

Lemma post_to_teams_extends (summary : str) : extends (post_to_teams env summary).
Proof. unfold post_to_teams. auto 10 with frames. Qed.

Lemma generate_embedding_extends (document : str) :
  extends (generate_embedding env document).
Proof. unfold generate_embedding. auto 10 with frames. Qed.

Lemma set_session_summary_extends (v : str) : extends (set_session_summary v).
Proof. intros s. exists []. cbn. now rewrite app_nil_r. Qed.

(** Whatever happens later, the handler's second block opens with its
    spinner and the Summarizer's request for the document. *)
Lemma summarize_opens (document : str) (checkbox : bool) (s : State) :
  exists later,
    log (snd (summarize env document checkbox s))
    = log s ++ [summary_spinner;
                Call (Generate_content (lit "gemini-2.0-flash")
                        [PROMPT_HEADER ++ document])] ++ later.
Proof.
  pose proof post_to_teams_extends. pose proof generate_embedding_extends.
  pose proof set_session_summary_extends.
  unfold summarize. unfold bind at 1. cbn [emit].
  unfold try_except. unfold bind at 1. rewrite generate_summary_run.
  destruct (generate_content env _ _ _) as [e|resp].
  - exists [summary_error_line e]. cbn [emit snd log logged].
    now rewrite <- !app_assoc.
  - match goal with
    | |- context [match ?k ?st with _ => _ end] =>
        assert (Hk : extends k) by (destruct checkbox; auto 20 with frames);
        destruct (Hk st) as [ev Hev]; destruct (k st) as [[e|[]] done]
    end; cbn [snd log logged emit] in *.
    + exists (ev ++ [summary_error_line e]).
      rewrite Hev. now rewrite <- !app_assoc.
    + exists ev. rewrite Hev. now rewrite <- !app_assoc.
Qed.

(** C6: when the Summarizer's call fails, the run ends with the error
    shown: after the spinner and the failed request nothing else is
    called (no webhook POST, no embedding), and the stored summary is
    the one from before the run. *)
Theorem summarization_failure_aborts (urls : list str) (checkbox : bool)
    (s gathered : State) (document : str) (e : exn) :
  fetch_all env urls s = (inr document, gathered) ->
  fst (generate_summary env document (logged gathered summary_spinner)) = inl e ->
  let request := Generate_content (lit "gemini-2.0-flash") [PROMPT_HEADER ++ document] in
  combined_summary env urls checkbox s =
  (inr tt,
   {| log := log gathered ++ [summary_spinner; Call request; summary_error_line e];
      session_summary := session_summary s |})
  /\ calls [summary_spinner; Call request; summary_error_line e] = [request].
Proof.
  intros Hfetch Hfail request. split; [|reflexivity].
  pose proof (proj2 (fetch_all_frames env urls) s) as Hkeep.
  unfold combined_summary. unfold bind at 1. rewrite Hfetch in *.
  cbn [snd] in Hkeep.
  unfold summarize. unfold bind at 1. cbn [emit].
  unfold try_except. unfold bind at 1.
  rewrite generate_summary_run in *. cbn [fst] in Hfail.
  destruct (generate_content env _ _ _) as [e'|resp]; [|discriminate].
  injection Hfail as ->.
  unfold emit, logged. cbn [log session_summary]. rewrite Hkeep.
  now rewrite <- !app_assoc.
Qed.

End Handler.

Lemma summarization_failure_aborts_witness :
  session_summary
    (snd (combined_summary Sample.summarizer_down Sample.one_url true initial))
  = None.
Proof.
  pose proof (summarization_failure_aborts Sample.summarizer_down
                Sample.one_url true initial
                (gathered := snd (fetch_all Sample.summarizer_down Sample.one_url initial))
                (document := lit "

=== Transcript 1 ===
Hello world")
                (e := Sample.quota) eq_refl eq_refl) as [H _].
  rewrite H. reflexivity.
Defined.

Section AllFail.

Variable env : Env.

Lemma aggregated_of_failures (outcomes : list (exn + str)) :
  Forall (fun o => exists e, o = inl e) outcomes ->
  forall i, aggregated i outcomes = [].
Proof.
  induction 1 as [|o os [e ->] _ IH]; intros i; [reflexivity|].
  cbn. apply IH.
Qed.

(** C10: when every fetch of the run raises, the Aggregated Document is
    empty and the run still goes on to the Summarizer, whose request
    then carries the header and nothing else. *)
Theorem all_fetches_fail_header_only (urls : list str) (checkbox : bool)
    (s : State) :
  Forall failed (fetch_outcomes env urls s) ->
  fst (fetch_all env urls s) = inr []
  /\ exists later,
       log (snd (combined_summary env urls checkbox s))
       = log (snd (fetch_all env urls s))
         ++ [summary_spinner;
             Call (Generate_content (lit "gemini-2.0-flash") [PROMPT_HEADER])]
         ++ later.
Proof.
  intros Hfail.
  assert (Hdoc : fst (fetch_all env urls s) = inr []).
  { rewrite fetch_all_run. f_equal. now apply aggregated_of_failures. }
  split; [assumption|].
  unfold combined_summary. unfold bind at 1.
  destruct (fetch_all env urls s) as [[e|document] gathered];
    cbn [fst snd] in *; [discriminate|].
  injection Hdoc as ->.
  destruct (summarize_opens env [] checkbox gathered) as [later H].
  exists later. rewrite H. now rewrite app_nil_r.
Qed.

End AllFail.

Lemma all_fetches_fail_header_only_witness :
  let urls := [lit "http://b.example/2.txt"; lit "http://c.example/3.txt"] in
  fst (fetch_all Sample.first_only urls initial) = inr []
  /\ exists later,
       log (snd (combined_summary Sample.first_only urls true initial))
       = log (snd (fetch_all Sample.first_only urls initial))
         ++ [summary_spinner;
             Call (Generate_content (lit "gemini-2.0-flash") [PROMPT_HEADER])]
         ++ later.
Proof.
  apply (all_fetches_fail_header_only Sample.first_only
           [lit "http://b.example/2.txt"; lit "http://c.example/3.txt"]
           true initial).
  repeat constructor; exists Sample.unreachable; reflexivity.
Defined.

(** ** Failures after the summary is shown *)

Section AfterSummary.

Variable env : Env.

Ltac run_summarize :=
  unfold summarize, generate_summary, post_to_teams, generate_embedding,
    set_session_summary, try_except, bind, remote, emit, ret.

(** Use what a service answered at the history of the call, written
    with its events in one list. *)
Ltac answer_post H :=
  match type of H with
  | http_post _ ?known _ _ = _ =>
      match goal with
      | |- context [http_post _ ?h _ _] =>
          replace h with known by (now rewrite <- ?app_assoc)
      end
  end; rewrite H.

Ltac answer_embedding H :=
  match type of H with
  | embed_content _ ?known _ _ = _ =>
      match goal with
      | |- context [embed_content _ ?h _ _] =>
          replace h with known by (now rewrite <- ?app_assoc)
      end
  end; rewrite H.

(** When no call of the run raises, the summary is stored, whatever
    status the webhook answers with and whatever was stored before, and
    the history of the block is: what is shown of the summary, the post
    with its messages when the box is ticked, the embedding request and
    the first five components of its answer. *)
Lemma summary_stored_when_nothing_raises (document : str) (checkbox : bool)
    (s : State) (resp : genai.GenerateContentResponse)
    (r : requests.Response) (v : genai.EmbedContentResponse) :
  let request :=
    Generate_content (lit "gemini-2.0-flash") [PROMPT_HEADER ++ document] in
  let payload := JDict [(lit "text", JStr (TEAMS_HEADER ++ genai.text resp))] in
  let shown :=
    log s ++ [summary_spinner; Call request;
              St_subheader (lit "Combined Detailed Notes");
              St_write [VStr (genai.text resp)];
              St_success (lit "Summary generated successfully!")] in
  let posted :=
    if checkbox
    then Call (Requests_post (TEAMS_WEBHOOK_URL env) payload)
         :: (if (requests.status_code r =? 200)%Z then []
             else [St_error (lit "Teams webhook failed: " ++ requests.text r)])
         ++ [St_success (lit "Summary posted to Microsoft Teams!")]
    else [] in
  generate_content env (log s ++ [summary_spinner]) (lit "gemini-2.0-flash")
    [PROMPT_HEADER ++ document] = inr resp ->
  (checkbox = true ->
   http_post env shown (TEAMS_WEBHOOK_URL env) payload = inr r) ->
  embed_content env (shown ++ posted) (lit "gemini-embedding-exp-03-07")
    document = inr v ->
  session_summary (snd (summarize env document checkbox s))
  = Some (genai.text resp)
  /\ log (snd (summarize env document checkbox s))
     = shown ++ posted
       ++ [Call (Embed_content (lit "gemini-embedding-exp-03-07") document);
           St_write [VStr (lit "Embedding (first 5 dims):");
                     VEmbeddings (firstn 5 (genai.embeddings v))]].
Proof.
  intros request payload shown posted Hgen Hpost Hembed.
  subst request payload shown posted.
  run_summarize. cbn [log logged]. rewrite Hgen. cbn [log logged].
  destruct checkbox.
  - specialize (Hpost eq_refl). cbn [log logged].
    answer_post Hpost. cbn [log logged].
    destruct (requests.status_code r =? 200)%Z; cbn [negb log logged];
      answer_embedding Hembed; cbn [fst snd log logged session_summary];
      (split; [reflexivity | now rewrite <- ?app_assoc]).
  - cbn [log logged]. answer_embedding Hembed.
    cbn [fst snd log logged session_summary].
    split; [reflexivity | now rewrite <- ?app_assoc].
Qed.

(** When the embedding call raises, the summary of the run is not
    stored: the session keeps what it had. *)
Lemma embedding_failure_skips_store (document : str) (checkbox : bool) :
  (forall h m c, exists e, embed_content env h m c = inl e) ->
  keeps_summary (summarize env document checkbox).
Proof.
  intros Hdown s. run_summarize.
  repeat match goal with
    | |- context [embed_content env ?h ?m ?c] =>
        destruct (Hdown h m c) as [? ->]
    | |- context [generate_content env ?h ?m ?c] =>
        destruct (generate_content env h m c)
    | |- context [http_post env ?h ?u ?b] => destruct (http_post env h u b)
    | |- context [if ?x then _ else _] => destruct x
    end; reflexivity.
Qed.

(** When the POST to the webhook raises, the run makes no embedding
    call and does not store its summary. *)
Lemma post_failure_skips_rest (document : str) (s : State) :
  (forall h u b, exists e, http_post env h u b = inl e) ->
  session_summary (snd (summarize env document true s)) = session_summary s
  /\ exists events,
       log (snd (summarize env document true s)) = log s ++ events
       /\ forall m c, ~ In (Embed_content m c) (calls events).
Proof.
  intros Hdown. run_summarize.
  destruct (generate_content env _ _ _) as [e|resp].
  - split; [reflexivity|]. eexists. cbn [snd log logged].
    rewrite <- !app_assoc. split; [reflexivity|].
    cbn. intros m c [H|[]]. discriminate.
  - match goal with
    | |- context [http_post env ?h ?u ?b] => destruct (Hdown h u b) as [e ->]
    end.
    split; [reflexivity|]. eexists. cbn [snd log logged].
    rewrite <- !app_assoc. split; [reflexivity|].
    cbn. intros m c [H|[H|[]]]; discriminate.
Qed.

End AfterSummary.

Ltac find_in := vm_compute; repeat first [left; reflexivity | right].

(** C3, on a run whose embedding call fails: the summary was shown and
    posted, the failure is reported as an error of the summary, and the
    summary is not stored, so the next run offers no Q&A; in the same
    run with a working embedding model the summary is stored and the
    question is answered from it. *)
Theorem embedding_failure_loses_summary :
  let run := snd (app Sample.embedding_down Sample.generating initial) in
  let next := snd (app Sample.embedding_down Sample.asking run) in
  let run_ok := snd (app Sample.fine Sample.generating initial) in
  let next_ok := snd (app Sample.fine Sample.asking run_ok) in
  In (St_write [VStr (lit "- Point A")]) (log run)
  /\ In (St_success (lit "Summary posted to Microsoft Teams!")) (log run)
  /\ In (St_error (lit "Error generating summary: quota exceeded")) (log run)
  /\ session_summary run = None
  /\ log next
     = log run ++ [St_title (lit "Multi-Video Transcript to Combined Summary & Q&A")]
  /\ session_summary run_ok = Some (lit "- Point A")
  /\ In (Call (Generate_content (lit "gemini-2.0-flash")
                 [chatbot_prompt (lit "- Point A") (lit "What is point A?")]))
        (log next_ok).
Proof.
  cbv zeta.
  split; [find_in|]. split; [find_in|]. split; [find_in|].
  split; [vm_compute; reflexivity|]. split; [vm_compute; reflexivity|].
  split; [vm_compute; reflexivity | find_in].
Qed.

(** C4, on a run whose POST to the webhook raises: the summary was
    shown, the failure is reported as an error of the summary, and the
    run stops there, with no embedding call and no summary stored; when
    the webhook answers 500 instead, the failure is reported and the run
    goes on to the embedding call and stores the summary. *)
Theorem webhook_transport_failure_aborts_run :
  let run := snd (app Sample.webhook_unreachable Sample.generating initial) in
  let rejected := snd (app Sample.webhook_rejects Sample.generating initial) in
  let document := lit "

=== Transcript 1 ===
Hello world" in
  In (St_write [VStr (lit "- Point A")]) (log run)
  /\ In (St_error (lit "Error generating summary: unreachable")) (log run)
  /\ (forall m c, ~ In (Embed_content m c) (calls (log run)))
  /\ session_summary run = None
  /\ In (St_error (lit "Teams webhook failed: boom")) (log rejected)
  /\ In (Embed_content (lit "gemini-embedding-exp-03-07") document)
        (calls (log rejected))
  /\ session_summary rejected = Some (lit "- Point A").
Proof.
  cbv zeta.
  split; [find_in|]. split; [find_in|].
  split.
  { vm_compute. intros m c H.
    repeat (destruct H as [H|H]; [discriminate|]). exact H. }
  split; [vm_compute; reflexivity|]. split; [find_in|].
  split; [find_in | vm_compute; reflexivity].
Qed.

(** * Further properties of the script *)

(** ** Parsing the text area *)

Lemma split_char_step (c x : N) (cur s : str) :
  split_scan [c] 0 cur (x :: s) =
  if N.eqb c x then cur :: split_scan [c] 0 [] s
  else split_scan [c] 0 (cur ++ [x]) s.
Proof. cbn. now rewrite andb_true_r. Qed.

Lemma split_char_pieces (c : N) (s : str) :
  forall cur, ~ In c cur -> Forall (fun p => ~ In c p) (split_scan [c] 0 cur s).
Proof.
  induction s as [|x s IH]; intros cur Hcur.
  - now constructor.
  - rewrite split_char_step. destruct (N.eqb_spec c x) as [->|Hne].
    + constructor; [assumption|]. now apply IH.
    + apply IH. intros Hin. apply in_app_or in Hin as [Hin|[Hin|[]]]; congruence.
Qed.

Lemma split_char_last (c : N) (p : str) :
  forall cur, ~ In c p -> split_scan [c] 0 cur p = [cur ++ p].
Proof.
  induction p as [|x p IH]; intros cur Hp.
  - cbn. now rewrite app_nil_r.
  - rewrite split_char_step. destruct (N.eqb_spec c x) as [->|Hne].
    + destruct Hp. now left.
    + rewrite IH by (intros H; apply Hp; now right). now rewrite <- app_assoc.
Qed.

Lemma split_char_piece (c : N) (p rest : str) :
  forall cur,
    ~ In c p ->
    split_scan [c] 0 cur (p ++ c :: rest) = (cur ++ p) :: split_scan [c] 0 [] rest.
Proof.
  induction p as [|x p IH]; intros cur Hp.
  - rewrite app_nil_l, split_char_step, N.eqb_refl. now rewrite app_nil_r.
  - rewrite <- app_comm_cons, split_char_step.
    destruct (N.eqb_spec c x) as [->|Hne].
    + destruct Hp. now left.
    + rewrite IH by (intros H; apply Hp; now right). now rewrite <- app_assoc.
Qed.

Lemma split_char_join (c : N) (us : list str) :
  forall u,
    Forall (fun p => ~ In c p) (u :: us) ->
    split_scan [c] 0 [] (join [c] (u :: us)) = u :: us.
Proof.
  induction us as [|v us IH]; intros u H.
  - cbn [join]. rewrite split_char_last; [reflexivity | now inversion H].
  - change (join [c] (u :: v :: us)) with (u ++ c :: join [c] (v :: us)).
    inversion H as [|? ? Hu Hrest]; subst.
    rewrite split_char_piece by assumption. now rewrite IH.
Qed.

Lemma lstrip_incl (s : str) (x : N) : In x (lstrip s) -> In x s.
Proof.
  induction s as [|c s IH]; [easy|]. cbn.
  destruct (isspace c); [intros H; right; now apply IH | easy].
Qed.

Lemma lstrip_kept (s : str) (c : N) :
  isspace c = false -> lstrip (c :: s) = c :: s.
Proof. intros H. cbn. now rewrite H. Qed.

Lemma lstrip_head (s : str) :
  lstrip s = [] \/ exists c t, lstrip s = c :: t /\ isspace c = false.
Proof.
  induction s as [|c s IH]; [now left|]. cbn.
  destruct (isspace c) eqn:E; [assumption|]. right. now exists c, s.
Qed.

Lemma lstrip_idempotent (s : str) : lstrip (lstrip s) = lstrip s.
Proof.
  destruct (lstrip_head s) as [->|[c [t [-> H]]]]; [reflexivity|].
  now apply lstrip_kept.
Qed.

Lemma lstrip_snoc (l : str) (c : N) :
  isspace c = false -> lstrip (l ++ [c]) = lstrip l ++ [c].
Proof.
  intros H. induction l as [|x l IH]; cbn.
  - now rewrite H.
  - destruct (isspace x); [assumption | reflexivity].
Qed.

Lemma rstrip_cons (c : N) (t : str) :
  isspace c = false -> rstrip (c :: t) = c :: rstrip t.
Proof.
  intros H. unfold rstrip. cbn [rev].
  now rewrite lstrip_snoc, rev_app_distr.
Qed.

Lemma rstrip_idempotent (s : str) : rstrip (rstrip s) = rstrip s.
Proof. unfold rstrip. now rewrite rev_involutive, lstrip_idempotent. Qed.

Lemma strip_idempotent (s : str) : strip (strip s) = strip s.
Proof.
  unfold strip. destruct (lstrip_head s) as [->|[c [t [-> H]]]]; [reflexivity|].
  rewrite (@rstrip_cons c t H), (@lstrip_kept _ c H), <- (@rstrip_cons c t H).
  apply rstrip_idempotent.
Qed.

Lemma strip_incl (s : str) (x : N) : In x (strip s) -> In x s.
Proof.
  unfold strip, rstrip. intros H. apply in_rev, lstrip_incl in H.
  apply in_rev in H. now apply lstrip_incl.
Qed.

Lemma truthy_nonempty (s : str) : truthy s = true <-> s <> [].
Proof. destruct s; cbn; split; congruence. Qed.

Lemma lstrip_spaces (s : str) :
  Forall (fun c => isspace c = true) s -> lstrip s = [].
Proof. induction 1 as [|c s Hc _ IH]; [reflexivity|]. cbn. now rewrite Hc. Qed.

Lemma split_comma_blank (s : str) :
  forall cur,
    Forall (fun c => isspace c = true) cur ->
    Forall blank s ->
    Forall (Forall (fun c => isspace c = true)) (split_scan [44%N] 0 cur s).
Proof.
  induction s as [|x s IH]; intros cur Hcur Hs.
  - now repeat constructor.
  - rewrite split_char_step. inversion Hs as [|? ? Hx Hrest]; subst.
    destruct (N.eqb_spec 44%N x) as [<-|Hne].
    + constructor; [assumption|]. now apply IH.
    + destruct Hx as [->|Hx]; [congruence|].
      apply IH; [|assumption]. apply Forall_app. now repeat constructor.
Qed.

Lemma parse_urls_split (input : str) :
  parse_urls input
  = Some (filter truthy (map strip (split_scan [44%N] 0 [] input))).
Proof. reflexivity. Qed.

Lemma parse_blank (input : str) : Forall blank input -> parse_urls input = Some [].
Proof.
  intros H. rewrite parse_urls_split. f_equal.
  pose proof (@split_comma_blank input [] (Forall_nil _) H) as Hp.
  induction Hp as [|p ps Hspaces _ IH]; [reflexivity|].
  cbn [map filter]. unfold strip at 1. now rewrite (lstrip_spaces Hspaces).
Qed.

(** Every source reference the parser hands on is clean: not empty,
    with no white space left at either end, and without a comma. *)
Theorem parse_urls_yields_clean (input : str) :
  exists urls, parse_urls input = Some urls /\ Forall clean urls.
Proof.
  eexists. split; [apply parse_urls_split|].
  apply Forall_forall. intros u Hu.
  apply filter_In in Hu as [Hu Hne]. apply in_map_iff in Hu as [p [<- Hp]].
  repeat split.
  - now apply truthy_nonempty.
  - apply strip_idempotent.
  - intros Hin. apply strip_incl in Hin.
    pose proof (@split_char_pieces 44%N input [] (fun f => f)) as Hall.
    rewrite Forall_forall in Hall. exact (Hall p Hp Hin).
Qed.

(** Clean source references written one after the other with commas
    between them are read back as they are, in the same order. *)
Theorem parse_urls_of_join (urls : list str) :
  Forall clean urls -> parse_urls (join (lit ",") urls) = Some urls.
Proof.
  intros H. rewrite parse_urls_split. f_equal.
  destruct urls as [|u us]; [reflexivity|].
  change (lit ",") with [44%N]. rewrite split_char_join.
  - induction H as [|v vs [Hne [Hstrip _]] _ IH]; [reflexivity|].
    cbn [map filter]. rewrite Hstrip.
    apply truthy_nonempty in Hne. now rewrite Hne, IH.
  - eapply Forall_impl; [|exact H]. now intros v [_ [_ Hv]].
Qed.

Lemma parse_urls_of_join_witness :
  parse_urls (join (lit ",") Sample.two_urls) = Some Sample.two_urls.
Proof.
  apply parse_urls_of_join.
  repeat constructor; try discriminate;
    (vm_compute; intros H; repeat (destruct H as [H|H]; [discriminate|]); exact H).
Defined.

(** ** The history of the fetch phase *)

Section FetchPhase.

Variable env : Env.

Lemma fetch_transcript_log (url : str) (s : State) :
  snd (fetch_transcript env url s) = logged s (Call (fetch_request url)).
Proof.
  unfold fetch_request. destruct (contains (lit "youtube.com") url) eqn:E.
  - rewrite fetch_transcript_video by assumption.
    now rewrite extract_transcript_run.
  - now rewrite fetch_transcript_generic.
Qed.

Lemma after_attempt_log (n idx : nat) (url : str) (s : State) :
  let started := logged s (fetching_line idx n) in
  log (after_attempt env url started)
  = log s ++ turn_events n idx url (fst (fetch_transcript env url started)).
Proof.
  intros started. unfold after_attempt, turn_events.
  pose proof (fetch_transcript_log url started) as H.
  destruct (fetch_transcript env url started) as [[e|transcript] fetched];
    cbn [fst snd] in *; subst fetched; subst started; cbn [log logged];
    now rewrite <- !app_assoc.
Qed.

Lemma loop_end_log (n : nat) (urls : list str) :
  forall idx s,
    log (loop_end env n idx urls s)
    = log s
      ++ phase_events n idx
           (combine urls
              (map (fun at_ => fst (fetch_transcript env (fst at_) (snd at_)))
                 (combine urls (fetch_points env n idx urls s)))).
Proof.
  induction urls as [|url rest IH]; intros idx s.
  - cbn. now rewrite app_nil_r.
  - cbn [loop_end fetch_points combine map phase_events fst snd].
    rewrite IH, after_attempt_log. now rewrite <- app_assoc.
Qed.

Lemma fetch_all_end (urls : list str) (s : State) :
  snd (fetch_all env urls s)
  = loop_end env (List.length urls) 1 urls
      (logged s (fetch_spinner (List.length urls))).
Proof.
  unfold fetch_all. unfold bind at 1. cbn [emit]. now rewrite fetch_loop_run.
Qed.

Lemma fetch_all_log (urls : list str) (s : State) :
  log (snd (fetch_all env urls s))
  = log s
    ++ fetch_spinner (List.length urls)
       :: phase_events (List.length urls) 1
            (combine urls (fetch_outcomes env urls s)).
Proof.
  rewrite fetch_all_end, loop_end_log. cbn [log logged].
  now rewrite <- app_assoc.
Qed.

Lemma fetch_outcomes_length (urls : list str) (s : State) :
  List.length (fetch_outcomes env urls s) = List.length urls.
Proof.
  unfold fetch_outcomes.
  rewrite length_map, length_combine, fetch_points_length. apply Nat.min_id.
Qed.

Lemma calls_app (h h' : history) : calls (h ++ h') = calls h ++ calls h'.
Proof.
  induction h as [|e h IH]; [reflexivity|].
  destruct e; cbn; now rewrite ?IH.
Qed.

Lemma errors_shown_app (h h' : history) :
  errors_shown (h ++ h') = errors_shown h ++ errors_shown h'.
Proof.
  induction h as [|e h IH]; [reflexivity|].
  destruct e; cbn; now rewrite ?IH.
Qed.

Lemma phase_calls (n : nat) (turns : list (str * (exn + str))) :
  forall idx, calls (phase_events n idx turns) = map fetch_request (map fst turns).
Proof.
  induction turns as [|[url outcome] rest IH]; intros idx; [reflexivity|].
  cbn [phase_events map fst]. rewrite calls_app, IH.
  now destruct outcome.
Qed.

Lemma phase_errors (n : nat) (turns : list (str * (exn + str))) :
  forall idx,
    errors_shown (phase_events n idx turns)
    = flat_map
        (fun turn =>
           match snd turn with
           | inl e => [lit "Error fetching transcript for " ++ fst turn
                       ++ lit ": " ++ exn_msg e]
           | inr _ => []
           end) turns.
Proof.
  induction turns as [|[url outcome] rest IH]; intros idx; [reflexivity|].
  cbn [phase_events flat_map fst snd]. rewrite errors_shown_app, IH.
  now destruct outcome.
Qed.

Lemma map_fst_combine {X Y} (xs : list X) (ys : list Y) :
  List.length xs = List.length ys -> map fst (combine xs ys) = xs.
Proof.
  revert ys. induction xs as [|x xs IH]; intros [|y ys] H; try easy.
  cbn. f_equal. apply IH. now injection H.
Qed.

(** The fetch phase leaves this history, whatever the services answer:
    its spinner, then for each source in input order its progress line,
    the one remote call of its fetch and, when the fetch raised, its
    error line. *)
Theorem fetch_phase_history (urls : list str) (s : State) :
  log (snd (fetch_all env urls s))
  = log s
    ++ fetch_spinner (List.length urls)
       :: phase_events (List.length urls) 1
            (combine urls (fetch_outcomes env urls s))
  /\ List.length (fetch_outcomes env urls s) = List.length urls
  /\ session_summary (snd (fetch_all env urls s)) = session_summary s.
Proof.
  split; [apply fetch_all_log|]. split; [apply fetch_outcomes_length|].
  apply fetch_all_frames.
Qed.

(** Each source is fetched by exactly one remote call, in input order,
    with no second attempt after a failure. *)
Theorem fetch_phase_calls (urls : list str) (s : State) :
  exists events,
    log (snd (fetch_all env urls s)) = log s ++ events
    /\ calls events = map fetch_request urls.
Proof.
  eexists. split; [apply fetch_all_log|].
  cbn [calls]. rewrite phase_calls, map_fst_combine; [reflexivity|].
  symmetry. apply fetch_outcomes_length.
Qed.

(** The errors shown during the fetch phase are one line per failed
    source, in input order, naming the source and the exception's text;
    a fetched source shows none. *)
Theorem fetch_phase_errors (urls : list str) (s : State) :
  exists events,
    log (snd (fetch_all env urls s)) = log s ++ events
    /\ errors_shown events
       = flat_map
           (fun turn =>
              match snd turn with
              | inl e => [lit "Error fetching transcript for " ++ fst turn
                          ++ lit ": " ++ exn_msg e]
              | inr _ => []
              end) (combine urls (fetch_outcomes env urls s)).
Proof.
  eexists. split; [apply fetch_all_log|].
  cbn [errors_shown fetch_spinner]. apply phase_errors.
Qed.

Lemma contribution_nonempty (i : nat) (transcript : str) :
  contribution i (inr transcript) <> [].
Proof. discriminate. Qed.

Lemma aggregated_empty (outcomes : list (exn + str)) :
  forall i, aggregated i outcomes = [] <-> Forall failed outcomes.
Proof.
  induction outcomes as [|o os IH]; intros i.
  - split; [constructor | reflexivity].
  - cbn [aggregated]. split.
    + intros H. apply app_eq_nil in H as [Ho Hos].
      constructor; [|now apply (IH (S i))].
      destruct o as [e|t]; [now exists e | now apply contribution_nonempty in Ho].
    + intros H. inversion H as [|? ? [e ->] Hos]; subst.
      cbn [contribution app]. now apply IH.
Qed.

(** The Aggregated Document is empty exactly when every fetch of the
    run raised: a fetch that returns, even with an empty text, leaves
    its separator block. *)
Theorem document_empty_iff_all_failed (urls : list str) (s : State) :
  fst (fetch_all env urls s) = inr []
  <-> Forall failed (fetch_outcomes env urls s).
Proof.
  rewrite fetch_all_run, <- (aggregated_empty _ 1). split.
  - now intros [= ->].
  - now intros ->.
Qed.

Lemma aggregated_occurs (outcomes : list (exn + str)) :
  forall i k o,
    nth_error outcomes k = Some o ->
    occurs (contribution (i + k) o) (aggregated i outcomes).
Proof.
  induction outcomes as [|o' os IH]; intros i k o H; [now destruct k|].
  destruct k as [|k]; cbn in H.
  - injection H as ->. rewrite Nat.add_0_r. cbn [aggregated].
    now exists [], (aggregated (S i) os).
  - destruct (IH (S i) k o H) as [before [after Heq]].
    exists (contribution i o' ++ before), after. cbn [aggregated].
    rewrite Heq, Nat.add_succ_r. now rewrite <- app_assoc.
Qed.

(** Partial failure keeps what was fetched: the separator block of
    position [i] followed by the fetched text is in the document for
    every source whose fetch returned, whatever the other fetches did. *)
Theorem fetched_segments_survive (urls : list str) (s : State) (i : nat)
    (transcript : str) :
  nth_error (fetch_outcomes env urls s) i = Some (inr transcript) ->
  exists document,
    fst (fetch_all env urls s) = inr document
    /\ occurs (separator (1 + i) ++ transcript) document.
Proof.
  intros H. eexists. split; [apply fetch_all_run|].
  rewrite separator_contribution. now apply aggregated_occurs.
Qed.

End FetchPhase.

Lemma fetched_segments_survive_witness :
  exists document,
    fst (fetch_all Sample.first_only
           [lit "http://b.example/2.txt"; lit "http://a.example/1.txt"] initial)
    = inr document
    /\ occurs (separator 2 ++ lit "Hello world") document.
Proof.
  apply (fetched_segments_survive Sample.first_only
           [lit "http://b.example/2.txt"; lit "http://a.example/1.txt"]
           initial 1).
  reflexivity.
Defined.

(** ** The handler as a whole *)

Section Generate.

Variable env : Env.

Ltac unfold_summarize :=
  unfold summarize, generate_summary, post_to_teams, generate_embedding,
    set_session_summary, try_except, bind, remote, emit, ret.

Lemma summarize_returns (document : str) (checkbox : bool) (s : State) :
  fst (summarize env document checkbox s) = inr tt.
Proof.
  unfold summarize. unfold bind at 1. cbn [emit]. unfold try_except.
  match goal with
  | |- context [match ?m ?st with _ => _ end] => destruct (m st) as [[e|[]] done]
  end; reflexivity.
Qed.

Lemma on_generate_parsed (input : str) (checkbox : bool) (s : State) :
  input <> [] ->
  on_generate env input checkbox s
  = summarize env
      (aggregated 1
         (fetch_outcomes env
            (filter truthy (map strip (split_scan [44%N] 0 [] input))) s))
      checkbox
      (snd (fetch_all env
              (filter truthy (map strip (split_scan [44%N] 0 [] input))) s)).
Proof.
  intros Hne. unfold on_generate.
  apply truthy_nonempty in Hne. rewrite Hne. cbn [negb].
  rewrite parse_urls_split. cbn [of_option]. unfold bind at 1. cbn [ret].
  unfold combined_summary, bind.
  pose proof (fetch_all_run env
                (filter truthy (map strip (split_scan [44%N] 0 [] input))) s) as H.
  destruct (fetch_all env _ s) as [outcome gathered]. cbn [fst snd] in *.
  now rewrite H.
Qed.

(** No exception leaves the handler of the "Generate" button: whatever
    the text area holds and whatever the services do, it returns. *)
Theorem on_generate_never_raises (input : str) (checkbox : bool) (s : State) :
  fst (on_generate env input checkbox s) = inr tt.
Proof.
  destruct input as [|c input]; [reflexivity|].
  rewrite on_generate_parsed by discriminate. apply summarize_returns.
Qed.

(** With an empty text area the handler only warns; with anything else
    in it the run always reaches the Summarizer, which is sent the
    header and the document gathered from the parsed sources. *)
Theorem on_generate_reaches_summarizer (checkbox : bool) (s : State) :
  on_generate env [] checkbox s
  = (inr tt, logged s (St_warning (lit "Please enter at least one URL.")))
  /\ forall input,
       input <> [] ->
       exists urls document later,
         parse_urls input = Some urls
         /\ fst (fetch_all env urls s) = inr document
         /\ log (snd (on_generate env input checkbox s))
            = log (snd (fetch_all env urls s))
              ++ [summary_spinner;
                  Call (Generate_content (lit "gemini-2.0-flash")
                          [PROMPT_HEADER ++ document])]
              ++ later.
Proof.
  split; [reflexivity|]. intros input Hne.
  rewrite on_generate_parsed by assumption.
  destruct (summarize_opens env
              (aggregated 1
                 (fetch_outcomes env
                    (filter truthy (map strip (split_scan [44%N] 0 [] input))) s))
              checkbox
              (snd (fetch_all env
                      (filter truthy (map strip (split_scan [44%N] 0 [] input))) s)))
    as [later H].
  eexists _, _, later. split; [apply parse_urls_split|].
  split; [apply fetch_all_run | exact H].
Qed.

(** A text area holding only commas and white space is not empty, so
    the handler does not stop at its warning: the text parses to no
    source at all, and the run goes on to ask for a summary of the bare
    header. *)
Theorem blank_input_summarizes_nothing (input : str) (checkbox : bool)
    (s : State) :
  input <> [] ->
  Forall blank input ->
  parse_urls input = Some []
  /\ exists later,
       log (snd (on_generate env input checkbox s))
       = log s
         ++ [fetch_spinner 0; summary_spinner;
             Call (Generate_content (lit "gemini-2.0-flash") [PROMPT_HEADER])]
         ++ later.
Proof.
  intros Hne Hblank. pose proof (parse_blank Hblank) as Hparse.
  split; [assumption|].
  rewrite on_generate_parsed by assumption.
  rewrite parse_urls_split in Hparse. injection Hparse as ->.
  destruct (summarize_opens env (aggregated 1 (fetch_outcomes env [] s))
              checkbox (snd (fetch_all env [] s))) as [later H].
  exists later. rewrite H. cbn. now rewrite <- app_assoc.
Qed.

(** The remote calls of the second block are a non-empty initial part
    of: the summary request, the post (when the box is ticked), the
    embedding request for the document without header. Nothing is
    called twice and nothing out of this order. *)
Lemma summarize_calls_in_order (document : str) (checkbox : bool) (s : State) :
  exists events summary k,
    log (snd (summarize env document checkbox s)) = log s ++ events
    /\ 1 <= k
    /\ calls events = firstn k (summary_calls env document checkbox summary).
Proof.
  unfold_summarize.
  destruct (generate_content env _ _ _) as [e|resp].
  - eexists _, [], 1. cbn [snd log logged]. rewrite <- !app_assoc.
    split; [reflexivity|]. split; [lia | reflexivity].
  - destruct checkbox.
    + destruct (http_post env _ _ _) as [e|r].
      * eexists _, (genai.text resp), 2. cbn [snd log logged].
        rewrite <- !app_assoc. split; [reflexivity|]. split; [lia | reflexivity].
      * destruct (negb (requests.status_code r =? 200)%Z);
          destruct (embed_content env _ _ _) as [e|v];
          eexists _, (genai.text resp), 3; cbn [snd log logged];
          rewrite <- !app_assoc; (split; [reflexivity|]);
          (split; [lia | reflexivity]).
    + destruct (embed_content env _ _ _) as [e|v];
        eexists _, (genai.text resp), 2; cbn [snd log logged];
        rewrite <- !app_assoc; (split; [reflexivity|]);
        (split; [lia | reflexivity]).
Qed.

(** With the Teams box unticked no request is ever sent to the
    webhook. *)
Theorem unticked_never_posts (document : str) (s : State) :
  exists events,
    log (snd (summarize env document false s)) = log s ++ events
    /\ forall u body, ~ In (Requests_post u body) (calls events).
Proof.
  unfold_summarize.
  destruct (generate_content env _ _ _) as [e|resp];
    [|destruct (embed_content env _ _ _) as [e|v]];
    eexists; cbn [snd log logged]; rewrite <- !app_assoc;
    (split; [reflexivity|]); cbn; intros u body H;
    repeat (destruct H as [H|H]; [discriminate|]); exact H.
Qed.

(** After the second block the stored summary is either what it was, or
    the text the Summarizer returned in this run, unchanged. *)
Theorem stored_summary_is_summarizer_text (document : str) (checkbox : bool)
    (s : State) :
  session_summary (snd (summarize env document checkbox s)) = session_summary s
  \/ exists resp,
       generate_content env (log s ++ [summary_spinner]) (lit "gemini-2.0-flash")
         [PROMPT_HEADER ++ document] = inr resp
       /\ session_summary (snd (summarize env document checkbox s))
          = Some (genai.text resp).
Proof.
  unfold_summarize. cbn [log logged].
  destruct (generate_content env _ _ _) as [e|resp] eqn:Hgen; [now left|].
  destruct checkbox.
  - destruct (http_post env _ _ _) as [e|r]; [now left|].
    destruct (negb (requests.status_code r =? 200)%Z);
      (destruct (embed_content env _ _ _) as [e|v];
       [now left | right; now exists resp]).
  - destruct (embed_content env _ _ _) as [e|v];
      [now left | right; now exists resp].
Qed.

(** When the webhook answers with a status other than 200, the run
    shows the webhook's error and, right after it, still shows that the
    summary was posted. *)
Theorem posted_message_after_rejection (document : str) (s : State)
    (resp : genai.GenerateContentResponse) (r : requests.Response) :
  let request :=
    Generate_content (lit "gemini-2.0-flash") [PROMPT_HEADER ++ document] in
  let payload := JDict [(lit "text", JStr (TEAMS_HEADER ++ genai.text resp))] in
  let shown :=
    log s ++ [summary_spinner; Call request;
              St_subheader (lit "Combined Detailed Notes");
              St_write [VStr (genai.text resp)];
              St_success (lit "Summary generated successfully!")] in
  generate_content env (log s ++ [summary_spinner]) (lit "gemini-2.0-flash")
    [PROMPT_HEADER ++ document] = inr resp ->
  http_post env shown (TEAMS_WEBHOOK_URL env) payload = inr r ->
  requests.status_code r <> 200%Z ->
  exists later,
    log (snd (summarize env document true s))
    = shown
      ++ [Call (Requests_post (TEAMS_WEBHOOK_URL env) payload);
          St_error (lit "Teams webhook failed: " ++ requests.text r);
          St_success (lit "Summary posted to Microsoft Teams!")]
      ++ later.
Proof.
  intros request payload shown Hgen Hpost Hstatus.
  unfold_summarize. cbn [log logged]. rewrite Hgen. cbn [log logged].
  match goal with
  | |- context [http_post env ?h ?u ?b] =>
      replace h with shown by (subst shown; now rewrite <- !app_assoc)
  end.
  fold payload. rewrite Hpost.
  apply Z.eqb_neq in Hstatus. rewrite Hstatus. cbn [negb].
  destruct (embed_content env _ _ _) as [e|v];
    eexists; cbn [snd log logged]; subst shown request;
    rewrite <- !app_assoc; reflexivity.
Qed.

End Generate.

Lemma on_generate_reaches_summarizer_witness :
  exists urls document later,
    parse_urls (lit "http://a.example/1.txt") = Some urls
    /\ fst (fetch_all Sample.fine urls initial) = inr document
    /\ log (snd (on_generate Sample.fine (lit "http://a.example/1.txt") true initial))
       = log (snd (fetch_all Sample.fine urls initial))
         ++ [summary_spinner;
             Call (Generate_content (lit "gemini-2.0-flash")
                     [PROMPT_HEADER ++ document])]
         ++ later.
Proof.
  apply (proj2 (on_generate_reaches_summarizer Sample.fine true initial)).
  discriminate.
Defined.

Lemma blank_input_summarizes_nothing_witness :
  parse_urls (lit " , ,") = Some []
  /\ exists later,
       log (snd (on_generate Sample.fine (lit " , ,") true initial))
       = log initial
         ++ [fetch_spinner 0; summary_spinner;
             Call (Generate_content (lit "gemini-2.0-flash") [PROMPT_HEADER])]
         ++ later.
Proof.
  apply (blank_input_summarizes_nothing Sample.fine (input := lit " , ,") true initial).
  - discriminate.
  - repeat constructor; (now left) || (now right).
Defined.

Lemma posted_message_after_rejection_witness :
  exists later,
    log (snd (summarize Sample.webhook_rejects [] true initial))
    = (log initial
       ++ [summary_spinner;
           Call (Generate_content (lit "gemini-2.0-flash") [PROMPT_HEADER ++ []]);
           St_subheader (lit "Combined Detailed Notes");
           St_write [VStr (lit "- Point A")];
           St_success (lit "Summary generated successfully!")])
      ++ [Call (Requests_post (TEAMS_WEBHOOK_URL Sample.webhook_rejects)
                  (JDict [(lit "text", JStr (TEAMS_HEADER ++ lit "- Point A"))]));
          St_error (lit "Teams webhook failed: " ++ lit "boom");
          St_success (lit "Summary posted to Microsoft Teams!")]
      ++ later.
Proof.
  apply (posted_message_after_rejection Sample.webhook_rejects [] initial
           (resp := {| genai.text := lit "- Point A" |})
           (r := Sample.response 500 (lit "Internal Server Error")
                   (lit "https://teams.example/hook") (lit "boom"))).
  - reflexivity.
  - reflexivity.
  - discriminate.
Defined.

(** ** The chatbot interface *)

Section Chatbot.

Variable env : Env.

(** A question reaches the model only when Q&A is enabled, a non-empty
    summary is stored, "Ask Bot" was pressed and the question is not
    empty. The section then shows its rule, heading and spinner, sends
    the one request carrying the prompt built from the stored summary
    and the question, and shows either the answer or the line "Error in
    chatbot response: ..." with the exception's text; the stored summary
    stays. In every other case the interface makes no remote call,
    leaves the stored summary alone and returns. *)
Theorem chatbot_gate (enable ask : bool) (question : str) (s : State) :
  (forall summary,
     enable = true -> session_summary s = Some summary -> summary <> [] ->
     ask = true -> question <> [] ->
     let opened :=
       log s ++ [St_markdown (lit "---"); St_subheader (lit "Chatbot Q&A");
                 St_spinner (lit "Bot is thinking...")] in
     let prompt := chatbot_prompt summary question in
     chatbot env enable ask question s
     = (inr tt,
        {| log :=
             opened
             ++ Call (Generate_content (lit "gemini-2.0-flash") [prompt])
                :: match generate_content env opened (lit "gemini-2.0-flash")
                           [prompt] with
                   | inr resp =>
                       [St_write [VStr (lit "**Answer:**");
                                  VStr (genai.text resp)]]
                   | inl e =>
                       [St_error (lit "Error in chatbot response: "
                                  ++ exn_msg e)]
                   end;
           session_summary := session_summary s |}))
  /\ (enable = false \/ session_summary s = None \/ session_summary s = Some []
      \/ ask = false \/ question = [] ->
      exists events,
        log (snd (chatbot env enable ask question s)) = log s ++ events
        /\ calls events = []
        /\ session_summary (snd (chatbot env enable ask question s))
           = session_summary s
        /\ fst (chatbot env enable ask question s) = inr tt).
Proof.
  split.
  - intros summary -> Hstored Hsummary -> Hquestion opened prompt.
    apply truthy_nonempty in Hsummary, Hquestion.
    unfold chatbot, get_session_summary, bind at 1. rewrite Hstored, Hsummary.
    cbn [andb]. rewrite Hquestion.
    unfold ask_chatbot, try_except, bind, remote, emit, ret, chatbot_error_line.
    cbn [log logged]. fold prompt.
    match goal with
    | |- context [generate_content env ?h _ _] =>
        replace h with opened by (subst opened; now rewrite <- ?app_assoc)
    end.
    destruct (generate_content env opened _ _) as [e|resp];
      unfold logged; cbn [log session_summary]; subst opened;
      rewrite Hstored; now rewrite <- ?app_assoc.
  - intros Hno. unfold chatbot, get_session_summary, bind at 1.
    destruct (session_summary s) as [summary|] eqn:Hstored.
    + destruct enable; cbn [andb].
      * destruct summary as [|c summary]; cbn [truthy].
        -- exists []. cbn. now rewrite app_nil_r, Hstored.
        -- assert (Hq : ask && truthy question = false).
           { destruct Hno as [H | [H | [H | [H | H]]]];
               try discriminate; subst; [reflexivity | now destruct ask]. }
           unfold bind, emit. rewrite Hq.
           eexists. cbn [snd fst ret log logged session_summary].
           rewrite <- !app_assoc, Hstored. now repeat split.
      * exists []. cbn. now rewrite app_nil_r, Hstored.
    + exists []. cbn. now rewrite app_nil_r, Hstored.
Qed.

End Chatbot.

Lemma chatbot_gate_witness :
  log (snd (chatbot Sample.summarizer_down true true (lit "What is point A?")
              {| log := []; session_summary := Some (lit "- Point A") |}))
  = [St_markdown (lit "---"); St_subheader (lit "Chatbot Q&A");
     St_spinner (lit "Bot is thinking...");
     Call (Generate_content (lit "gemini-2.0-flash")
             [chatbot_prompt (lit "- Point A") (lit "What is point A?")]);
     St_error (lit "Error in chatbot response: quota exceeded")].
Proof.
  rewrite (proj1 (chatbot_gate Sample.summarizer_down true true
                    (lit "What is point A?")
                    {| log := []; session_summary := Some (lit "- Point A") |})
             (lit "- Point A") eq_refl eq_refl
             ltac:(discriminate) eq_refl ltac:(discriminate)).
  reflexivity.
Defined.

Lemma summary_stored_when_nothing_raises_witness :
  session_summary (snd (summarize Sample.webhook_rejects [] true initial))
  = Some (lit "- Point A").
Proof.
  refine (proj1 (@summary_stored_when_nothing_raises Sample.webhook_rejects []
                   true initial {| genai.text := lit "- Point A" |}
                   (Sample.response 500 (lit "Internal Server Error")
                      (lit "https://teams.example/hook") (lit "boom"))
                   {| genai.embeddings :=
                        [{| genai.values := [S754_zero false] |}] |}
                   _ _ _)).
  - reflexivity.
  - intros _. reflexivity.
  - reflexivity.
Defined.

Lemma embedding_failure_skips_store_witness :
  keeps_summary (summarize Sample.embedding_down [] true).
Proof.
  apply embedding_failure_skips_store.
  intros h m c. exists Sample.quota. reflexivity.
Defined.

Lemma post_failure_skips_rest_witness :
  session_summary (snd (summarize Sample.webhook_unreachable [] true initial))
  = session_summary initial
  /\ exists events,
       log (snd (summarize Sample.webhook_unreachable [] true initial))
       = log initial ++ events
       /\ forall m c, ~ In (Embed_content m c) (calls events).
Proof.
  apply post_failure_skips_rest.
  intros h u b. exists Sample.unreachable. reflexivity.
Defined.

Lemma document_empty_iff_all_failed_witness :
  fst (fetch_all Sample.sources_down Sample.two_urls initial) = inr [].
Proof.
  apply (proj2 (document_empty_iff_all_failed Sample.sources_down
                  Sample.two_urls initial)).
  repeat constructor; exists Sample.unreachable; reflexivity.
Defined.

(** ** A whole run *)

Section Run.

Variable env : Env.

Lemma combined_summary_run (urls : list str) (checkbox : bool) (s : State) :
  combined_summary env urls checkbox s
  = summarize env (aggregated 1 (fetch_outcomes env urls s)) checkbox
      (snd (fetch_all env urls s)).
Proof.
  unfold combined_summary, bind.
  pose proof (fetch_all_run env urls s) as H.
  destruct (fetch_all env urls s) as [outcome gathered]. cbn [fst snd] in *.
  now rewrite H.
Qed.

(** The remote calls of a whole run, in order: one fetch per source in
    input order, then a non-empty initial part of the summary request,
    the post (when the box is ticked) and the embedding request. The
    fetch phase is over before the Summarizer is called, and nothing
    else is called. *)
Theorem run_calls_in_order (urls : list str) (checkbox : bool) (s : State) :
  exists events summary k,
    log (snd (combined_summary env urls checkbox s)) = log s ++ events
    /\ 1 <= k
    /\ calls events
       = map fetch_request urls
         ++ firstn k
              (summary_calls env (aggregated 1 (fetch_outcomes env urls s))
                 checkbox summary).
Proof.
  rewrite combined_summary_run.
  destruct (summarize_calls_in_order env
              (aggregated 1 (fetch_outcomes env urls s)) checkbox
              (snd (fetch_all env urls s)))
    as [later [summary [k [Hlog [Hk Hcalls]]]]].
  exists (fetch_spinner (List.length urls)
          :: phase_events (List.length urls) 1
               (combine urls (fetch_outcomes env urls s)) ++ later),
         summary, k.
  split; [|split; [assumption|]].
  - rewrite Hlog, fetch_all_log. now rewrite <- app_assoc.
  - cbn [calls fetch_spinner]. rewrite calls_app, phase_calls, Hcalls.
    rewrite map_fst_combine; [reflexivity|].
    symmetry. apply fetch_outcomes_length.
Qed.

End Run.
